(** * AppImageLauncherFS: the virtual filesystem of src/fusefs/fs.cpp

    A shallow embedding of [AppImageLauncherFS::PrivateData]: the registry of
    registered AppImages, the path resolver and the FUSE request handlers,
    followed by the properties of the specification that were checked
    against them. *)

From Stdlib Require Import ZArith Ascii String List Lia Sorted.
From stdpp Require Import base option list strings gmap fin_maps sorting.

Local Open Scope Z_scope.

(** ** Machine integers *)

Module Int.

(** [int] is 32 bits wide, [size_t] and [off_t] are 64 bits wide. *)
Definition INT_MAX : Z := 2147483647.
Definition INT_MIN : Z := -2147483648.
Definition INT32_MAX : Z := 2147483647.

Definition in_int (z : Z) : bool := (INT_MIN <=? z) && (z <=? INT_MAX).

(** Two's-complement wrap-around of a 32-bit [int]. *)
Definition wrap_int (z : Z) : Z := (z + 2147483648) mod 4294967296 - 2147483648.

(** Conversion to [size_t], and arithmetic carried out in [size_t]. *)
Definition to_size_t (z : Z) : Z := z mod 18446744073709551616.

End Int.

(** ** Text: stream formatting, [std::stoi], [strsep] *)

Module Text.

Definition NUL : ascii := "000"%char.

Definition is_digit (c : ascii) : bool :=
  match Ascii.is_nat c with Some _ => true | None => false end.

Definition digit_value (c : ascii) : Z :=
  match Ascii.is_nat c with Some d => Z.of_nat d | None => 0 end.

Definition digit_char (d : Z) : ascii :=
  ascii_of_N (48 + Z.to_N d).

(** The decimal digits of a non-negative number, most significant first,
    pushed in front of [acc].  An [int] has at most ten digits. *)
Fixpoint dec_digits (fuel : nat) (n : Z) (acc : string) : string :=
  match fuel with
  | O => acc
  | S f =>
      let acc' := String (digit_char (n mod 10)) acc in
      if n / 10 =? 0 then acc' else dec_digits f (n / 10) acc'
  end.

(** [os << id] for an [int], decimal, no flags. *)
Definition int_to_decimal (n : Z) : string :=
  if n <? 0 then String "-"%char (dec_digits 10 (- n) "")
  else dec_digits 10 n "".

Fixpoint fill (n : nat) (c : ascii) (s : string) : string :=
  match n with
  | O => s
  | S k => String c (fill k c s)
  end.

(** [std::setfill(c) << std::setw(w) << x]: the default adjustment is to
    the right, the fill characters come first; a text that is already
    [w] wide or wider is left alone. *)
Definition setw_setfill (w : nat) (c : ascii) (s : string) : string :=
  fill (w - String.length s) c s.

Fixpoint skip_space (s : string) : string :=
  match s with
  | String c r => if Ascii.is_space c then skip_space r else s
  | EmptyString => EmptyString
  end.

(** Value of the longest prefix of decimal digits, on top of [acc]. *)
Fixpoint parse_digits (acc : Z) (s : string) : Z :=
  match s with
  | String c r =>
      if is_digit c then parse_digits (10 * acc + digit_value c) r else acc
  | EmptyString => acc
  end.

Definition starts_with_digit (s : string) : bool :=
  match s with
  | String c _ => is_digit c
  | EmptyString => false
  end.

Inductive stoi_result : Type :=
| stoi_value (i : Z)
| stoi_invalid_argument
| stoi_out_of_range.

(** [std::stoi(s)]: [strtol] in base ten (white space, an optional sign,
    then digits; what follows the digits is ignored).  No digit at all
    throws [std::invalid_argument]; a value that does not fit an [int]
    throws [std::out_of_range]. *)
Definition stoi (s : string) : stoi_result :=
  let s1 := skip_space s in
  let '(negative, s2) :=
    match s1 with
    | String "-"%char r => (true, r)
    | String "+"%char r => (false, r)
    | _ => (false, s1)
    end in
  if starts_with_digit s2 then
    let v := parse_digits 0 s2 in
    let v := if negative : bool then - v else v in
    if Int.in_int v then stoi_value v else stoi_out_of_range
  else stoi_invalid_argument.

(** [strsep(&p, ".")]: the token in front of the first dot (the whole
    text when it has none). *)
Fixpoint strsep_dot (s : string) : string :=
  match s with
  | String c r => if Ascii.eqb c "."%char then EmptyString else String c (strsep_dot r)
  | EmptyString => EmptyString
  end.

Fixpoint all_digits (s : string) : bool :=
  match s with
  | String c r => is_digit c && all_digits r
  | EmptyString => true
  end.

End Text.

(** [generateFilenameForId] *)
Definition generateFilenameForId (id : Z) : string :=
  Text.setw_setfill 4 "0"%char (Text.int_to_decimal id) +:+ ".AppImage".

(** ** The world outside the process *)

(** What a status query tells of a path.  [status_error]: [::stat] fails
    with an error other than [ENOENT] and [ENOTDIR] ([EACCES],
    [ENAMETOOLONG], ...). *)
Inductive file_type : Type := regular_file | directory_file | other_file | status_error.

(** What the handlers observe of the operating system and of the standard
    library at one moment: the working directory, the kind of file found at
    an absolute path ([None]: no such file), the descriptor
    [::open(path, O_RDONLY)] gives ([-1]: the call fails), the bytes behind
    a descriptor ([None]: not open), and the order in which a loop over the
    [std::unordered_map] meets the keys (the language leaves it open: the
    key of smaller rank comes first). *)
Record World : Type := {
  current_path : string;
  file_at : string -> option file_type;
  open_rdonly : string -> Z;
  fd_contents : Z -> option (list ascii);
  iteration_rank : Z -> Z;
}.

Fixpoint ends_with_slash (s : string) : bool :=
  match s with
  | EmptyString => false
  | String c EmptyString => Ascii.eqb c "/"%char
  | String _ r => ends_with_slash r
  end.

(** [bf::absolute(p)]: a path with a root directory is kept, any other is
    appended to the working directory. *)
Definition bf_absolute (w : World) (p : string) : string :=
  match p with
  | String "/"%char _ => p
  | EmptyString => current_path w
  | _ => if ends_with_slash (current_path w) then current_path w +:+ p
         else current_path w +:+ "/" +:+ p
  end.

(** The elements of a [bf::path], as the iterator of Boost.Filesystem 3
    yields them on POSIX: a root name [//net], the root directory [/], the
    file names between separators, and [.] for a separator that ends the
    path after a name.
    [names_from s cur after_name] reads the names of [s]; [cur] is the name
    read so far, [after_name] tells that a name came before. *)
Fixpoint names_from (s cur : string) (after_name : bool) : list string :=
  match s with
  | EmptyString =>
      match cur with
      | EmptyString => if after_name then ["."] else []
      | _ => [cur]
      end
  | String c r =>
      if Ascii.eqb c "/"%char then
        match cur with
        | EmptyString => names_from r "" after_name
        | _ => cur :: names_from r "" true
        end
      else names_from r (cur +:+ String c "") after_name
  end.

Fixpoint up_to_slash (s : string) : string :=
  match s with
  | EmptyString => ""
  | String c r => if Ascii.eqb c "/"%char then "" else String c (up_to_slash r)
  end.

Fixpoint from_slash (s : string) : string :=
  match s with
  | EmptyString => ""
  | String c r => if Ascii.eqb c "/"%char then s else from_slash r
  end.

Definition path_elements (p : string) : list string :=
  match p with
  | String "/"%char (String "/"%char r) =>
      match r with
      | String "/"%char _ => "/" :: names_from r "" false
      | _ =>
          ("//" +:+ up_to_slash r)
            :: match from_slash r with
               | EmptyString => []
               | rest => "/" :: names_from rest "" false
               end
      end
  | String "/"%char r => "/" :: names_from r "" false
  | _ => names_from p "" false
  end.

(** [operator==] of [bf::path]: the two paths have the same elements, so
    that repeated separators make no difference. *)
Definition bf_path_equal (p q : string) : bool :=
  bool_decide (path_elements p = path_elements q).

(** The status query behind the predicates of Boost.Filesystem.  [file_at]
    is asked with absolute paths; the empty path names no file. *)
Definition bf_status (w : World) (p : string) : option file_type :=
  if String.eqb p "" then None else file_at w (bf_absolute w p).

(** ** Errors (error.h) *)

Inductive exn : Type :=
| AlreadyRunningError
| CouldNotOpenFileError
| FileNotFoundError
| InvalidPathError
| CouldNotFindRegisteredAppImageError
| AppImageAlreadyRegisteredError (id : Z)
| DuplicateRegisteredAppImageError (firstId secondId : Z)
| std_out_of_range
| boost_filesystem_error.

(** The classes derived from [AppImageLauncherFSError]; [std::out_of_range]
    comes from the standard library and [boost::filesystem::filesystem_error]
    from Boost: they are not among them. *)
Definition is_AppImageLauncherFSError (e : exn) : bool :=
  match e with
  | std_out_of_range | boost_filesystem_error => false
  | _ => true
  end.

(** How a call ends: it returns, it throws, or it leaves defined
    behaviour. *)
Inductive outcome (A : Type) : Type :=
| Returns (a : A)
| Throws (e : exn)
| Undefined.
Arguments Returns {A} a.
Arguments Throws {A} e.
Arguments Undefined {A}.

(** [bf::exists(p)], [bf::is_regular_file(p)] and [bf::is_directory(p)],
    the overloads that throw, which are the ones fs.cpp calls: a status
    query that fails raises [boost::filesystem::filesystem_error]. *)
Definition bf_exists (w : World) (p : string) : outcome bool :=
  match bf_status w p with
  | None => Returns false
  | Some status_error => Throws boost_filesystem_error
  | Some _ => Returns true
  end.

Definition bf_is_regular_file (w : World) (p : string) : outcome bool :=
  match bf_status w p with
  | Some status_error => Throws boost_filesystem_error
  | Some regular_file => Returns true
  | _ => Returns false
  end.

Definition bf_is_directory (w : World) (p : string) : outcome bool :=
  match bf_status w p with
  | Some status_error => Throws boost_filesystem_error
  | Some directory_file => Returns true
  | _ => Returns false
  end.

(** ** The registry *)

Record RegisteredAppImage : Type := {
  _id : Z;
  _path : string;
  _fd : Z;
}.

(** The static members [registeredAppImages] and [counter]. *)
Record State : Type := {
  registeredAppImages : gmap Z RegisteredAppImage;
  counter : Z;
}.

(** Both statics as they are initialised at the end of fs.cpp. *)
Definition initial_state : State :=
  {| registeredAppImages := ∅; counter := 0 |}.

(** Code over the static members: a state and exception monad.  A throw
    keeps the state reached so far. *)
Definition M (A : Type) : Type := State -> outcome A * State.

Global Instance M_ret : MRet M := fun A a st => (Returns a, st).

Global Instance M_bind : MBind M := fun A B f m st =>
  match m st with
  | (Returns a, st') => f a st'
  | (Throws e, st') => (Throws e, st')
  | (Undefined, st') => (Undefined, st')
  end.

Global Instance M_throw : MThrow exn M := fun A e st => (Throws e, st).

Definition undefined {A} : M A := fun st => (Undefined, st).

(** A call that does not touch the statics. *)
Definition lift {A} (o : outcome A) : M A := fun st => (o, st).

Definition get_registeredAppImages : M (gmap Z RegisteredAppImage) :=
  fun st => (Returns (registeredAppImages st), st).

Definition set_registeredAppImages (r : gmap Z RegisteredAppImage) : M unit :=
  fun st => (Returns tt, {| registeredAppImages := r; counter := counter st |}).

(** [counter++] *)
Definition post_increment_counter : M Z :=
  fun st => (Returns (counter st),
             {| registeredAppImages := registeredAppImages st;
                counter := Int.wrap_int (counter st + 1) |}).

(** [try { m } catch (const E&) { h }] where [handles] tells the
    exceptions of class [E]. *)
Definition try_catch {A} (m : M A) (handles : exn -> bool) (h : exn -> M A) : M A :=
  fun st =>
    match m st with
    | (Throws e, st') => if handles e then h e st' else (Throws e, st')
    | r => r
    end.

Module RegisteredAppImage_.

(** [openFile] *)
Definition openFile (w : World) (r : RegisteredAppImage) : M RegisteredAppImage :=
  let fd := open_rdonly w (_path r) in
  if fd <? 0 then mthrow CouldNotOpenFileError
  else mret {| _id := _id r; _path := _path r; _fd := fd |}.

(** [RegisteredAppImage()] *)
Definition default : RegisteredAppImage :=
  {| _id := -1; _path := ""; _fd := -1 |}.

(** [RegisteredAppImage(id, path)] *)
Definition make (w : World) (id : Z) (path : string) : M RegisteredAppImage :=
  openFile w {| _id := id; _path := bf_absolute w path; _fd := -1 |}.

(** The copy constructor: it opens the file again. *)
Definition copy (w : World) (r : RegisteredAppImage) : M RegisteredAppImage :=
  openFile w {| _id := _id r; _path := _path r; _fd := -1 |}.

(** [checkExistsOnDisk] *)
Definition checkExistsOnDisk (w : World) (r : RegisteredAppImage) : outcome bool :=
  bf_is_regular_file w (_path r).

End RegisteredAppImage_.

(** [registeredAppImages.emplace(id, r)]: the pair is built by copy, and
    inserted unless the key is already there. *)
Definition emplace (w : World) (id : Z) (r : RegisteredAppImage) : M unit :=
  r' ← RegisteredAppImage_.copy w r;
  m ← get_registeredAppImages;
  match m !! id with
  | Some _ => mret tt
  | None => set_registeredAppImages (<[id := r']> m)
  end.

(** [registeredAppImages[id]]: a missing key is inserted with a
    default-constructed value. *)
Definition index (id : Z) : M RegisteredAppImage :=
  m ← get_registeredAppImages;
  match m !! id with
  | Some r => mret r
  | None =>
      set_registeredAppImages (<[id := RegisteredAppImage_.default]> m);;
      mret RegisteredAppImage_.default
  end.

(** [registeredAppImages.erase(id)] *)
Definition erase (id : Z) : M unit :=
  m ← get_registeredAppImages;
  set_registeredAppImages (delete id m).

(** The entries of the map in the order in which a loop over it meets
    them. *)
Definition rank_le (w : World) (a b : Z * RegisteredAppImage) : Prop :=
  iteration_rank w a.1 <= iteration_rank w b.1.

Global Instance rank_le_dec (w : World) (a b : Z * RegisteredAppImage) :
  Decision (rank_le w a b).
Proof. unfold rank_le. apply _. Defined.

Definition iteration (w : World) (m : gmap Z RegisteredAppImage)
    : list (Z * RegisteredAppImage) :=
  merge_sort (rank_le w) (map_to_list m).

(** [registerAppImage]; the line written to [std::cout] is left out.  The
    search compares the path as it was given with the stored, absolute
    paths, as [bf::path] values, and stops at the first entry that is
    equal. *)
Definition registerAppImage (w : World) (path : string) : M Z :=
  found ← lift (bf_exists w path);
  if negb found then mthrow FileNotFoundError
  else
    m ← get_registeredAppImages;
    let it := List.find (fun r : Z * RegisteredAppImage => bf_path_equal path (_path r.2))
                        (iteration w m) in
    match it with
    | Some r => mthrow (AppImageAlreadyRegisteredError r.1)
    | None =>
        id ← post_increment_counter;
        r ← RegisteredAppImage_.make w id path;
        emplace w id r;;
        mret id
    end.

(** [mapPathToRegisteredAppImage] *)
Definition mapPathToRegisteredAppImage (w : World) (path : string) : M RegisteredAppImage :=
  let firstPart := Text.strsep_dot path in
  match firstPart with
  | String "/"%char firstPart =>
      match Text.stoi firstPart with
      | Text.stoi_invalid_argument => mthrow CouldNotFindRegisteredAppImageError
      | Text.stoi_out_of_range => mthrow std_out_of_range
      | Text.stoi_value id =>
          if negb (String.eqb path ("/" +:+ generateFilenameForId id)) then
            mthrow CouldNotFindRegisteredAppImageError
          else
            registeredAppImage ← index id;
            onDisk ← lift (RegisteredAppImage_.checkExistsOnDisk w registeredAppImage);
            if negb onDisk then
              erase id;;
              mthrow CouldNotFindRegisteredAppImageError
            else mret registeredAppImage
      end
  | _ => mthrow InvalidPathError
  end.

Definition endl : string := String "010"%char "".

(** The first loop of [generateTextMap] over the entries that are left,
    with the text and the set of ids it has so far; an exception of
    [checkExistsOnDisk] ends it. *)
Fixpoint generateTextMap_loop (w : World) (entries : list (Z * RegisteredAppImage))
    (acc : string * gset Z) : outcome (string * gset Z) :=
  match entries with
  | [] => Returns acc
  | entry :: entries =>
      match RegisteredAppImage_.checkExistsOnDisk w entry.2 with
      | Returns onDisk =>
          generateTextMap_loop w entries
            (if negb onDisk then (acc.1, acc.2 ∪ {[ entry.1 ]})
             else
               (acc.1 +:+ generateFilenameForId entry.1 +:+ " -> " +:+ _path entry.2 +:+ endl,
                acc.2))
      | Throws e => Throws e
      | Undefined => Undefined
      end
  end.

(** [generateTextMap]: one line for each entry whose file is still there,
    in the iteration order of the map; the others are erased. *)
Definition generateTextMap (w : World) : M string :=
  m ← get_registeredAppImages;
  '(map, idsToRemove) ← lift (generateTextMap_loop w (iteration w m) ("", ∅));
  foldr (fun id rest => erase id;; rest) (mret tt) (elements idsToRemove);;
  mret map.


(** ** The request handlers *)

(** Error numbers and open flags of the host (Linux). *)
Definition EPERM : Z := 1.
Definition ENOENT : Z := 2.
Definition EIO : Z := 5.
Definition O_WRONLY : Z := 1.
Definition O_RDWR : Z := 2.

Definition REGISTER_MSG : string :=
  "Write paths to AppImages into this virtual file, one per line, to register them" +:+ endl.

(** The caller's memory, byte by byte.  A buffer is an address in it; a
    store next to the buffer lands in the neighbouring bytes. *)
Definition memory : Type := Z -> ascii.

(** [data s + i]: the characters of [s], then its terminator. *)
Definition char_at (s : list ascii) (i : Z) : ascii :=
  if i <? 0 then Text.NUL else nth (Z.to_nat i) s Text.NUL.

(** [memcpy(dst, src + from, n)] *)
Definition memcpy (m : memory) (dst : Z) (src : list ascii) (from n : Z) : memory :=
  fun a => if (dst <=? a) && (a <? dst + n) then char_at src (from + (a - dst)) else m a.

(** [memset(dst, c, n)] *)
Definition memset (m : memory) (dst : Z) (c : ascii) (n : Z) : memory :=
  fun a => if (dst <=? a) && (a <? dst + n) then c else m a.

Arguments memcpy : simpl never.
Arguments memset : simpl never.

(** The first [n] bytes at [buf]: what a handler that returned [n] hands
    back to the reader. *)
Definition bytes_at (m : memory) (buf : Z) (n : Z) : list ascii :=
  List.map (fun i => m (buf + Z.of_nat i)) (List.seq 0 (Z.to_nat n)).

(** What the reader gets from a handler that returned [r.1] and left the
    memory [r.2]: the return value and, when it is a count, that many
    bytes of the buffer. *)
Definition reply (buf : Z) (r : Z * memory) : Z * list ascii :=
  (r.1, bytes_at r.2 buf r.1).

Record fuse_file_info : Type := {
  flags : Z;
  fh : Z;
}.

(** [::pread(fd, buf, bufsize, offset)] on a regular file: as many bytes
    as the file has from [offset] on, [bufsize] at most; [-1] for a
    descriptor that is not open or a negative offset. *)
Definition pread (w : World) (fd : Z) (m : memory) (buf bufsize offset : Z) : Z * memory :=
  match fd_contents w fd with
  | None => (-1, m)
  | Some file =>
      if offset <? 0 then (-1, m)
      else
        let n := Z.max 0 (Z.min bufsize (Z.of_nat (length file) - offset)) in
        (n, memcpy m buf file offset n)
  end.

(** [handleReadMap] *)
Definition handleReadMap (w : World) (m : memory) (buf bufsize offset : Z) : M (Z * memory) :=
  map ← generateTextMap w;
  let size := Z.of_nat (String.length map) in
  if offset >? size then mret (- EIO, m)
  else
    let bytesToCopy := Int.to_size_t (Z.min bufsize size - offset) in
    if bytesToCopy >? Int.INT32_MAX then mret (- EIO, m)
    else mret (bytesToCopy, memcpy m buf (list_ascii_of_string map) offset bytesToCopy).

(** [handleWriteRegister]: it serves the reads of the registration
    file. *)
Definition handleWriteRegister (m : memory) (buf bufsize offset : Z) : Z * memory :=
  let bytesToWrite :=
    Int.to_size_t (Z.min bufsize (Z.of_nat (String.length REGISTER_MSG)) - offset) in
  if bytesToWrite >? Int.INT32_MAX then (- EIO, m)
  else (bytesToWrite, memcpy m (buf + offset) (list_ascii_of_string REGISTER_MSG) 0 bytesToWrite).

Definition magicBytesBegin : Z := 8.
Definition magicBytesEnd : Z := 10.

(** [handleReadRegisteredAppImage] *)
Definition handleReadRegisteredAppImage (w : World) (m : memory) (buf bufsize offset : Z)
    (fi : fuse_file_info) : Z * memory :=
  let '(bytesRead, m) := pread w (Int.wrap_int (fh fi)) m buf bufsize offset in
  if bytesRead <? 0 then (bytesRead, m)
  else if bytesRead >? Int.INT32_MAX then (- EIO, m)
  else
    let m :=
      if offset <=? magicBytesEnd then
        let beg := magicBytesBegin - offset in
        let count :=
          Int.to_size_t
            (Z.min (Z.min (Int.to_size_t (magicBytesEnd - offset)) 2) bufsize + 1) in
        memset m (buf + beg) Text.NUL count
      else m in
    (bytesRead, m).

Definition is_CouldNotFindRegisteredAppImageError (e : exn) : bool :=
  match e with
  | CouldNotFindRegisteredAppImageError => true
  | _ => false
  end.

Definition is_AppImageAlreadyRegisteredError (e : exn) : bool :=
  match e with
  | AppImageAlreadyRegisteredError _ => true
  | _ => false
  end.

(** [readdir]: the names handed to [filler], in order.  The names of the
    entries come in the order of [map_to_list] here and in the order of the
    loop over the map in the code; what is proved of [readdir] does not
    depend on that order. *)
Definition readdir (path : string) : M (Z * list string) :=
  if negb (String.eqb path "/") then mret (- ENOENT, [])
  else
    m ← get_registeredAppImages;
    mret (0, ["."; ".."; "map"; "register"]
             ++ List.map (fun entry : Z * RegisteredAppImage => generateFilenameForId entry.1)
                         (map_to_list m)).

(** [read] *)
Definition read (w : World) (path : string) (m : memory) (buf bufsize offset : Z)
    (fi : fuse_file_info) : M (Z * memory) :=
  if String.eqb path "/map" then handleReadMap w m buf bufsize offset
  else if String.eqb path "/register" then mret (handleWriteRegister m buf bufsize offset)
  else
    try_catch
      (mapPathToRegisteredAppImage w path;;
       mret (handleReadRegisteredAppImage w m buf bufsize offset fi))
      is_CouldNotFindRegisteredAppImageError
      (fun _ => mret (- ENOENT, m)).

(** The [std::vector<char>] objects made by [open], by address. *)
Definition vectors : Type := gmap Z (list ascii).

(** [new std::vector<char>]: an address that is not null and not in use. *)
Definition new_vector (h : vectors) : Z :=
  1 + foldr Z.max 0 (elements (dom h)).

(** [open] *)
Definition open (w : World) (path : string) (fi : fuse_file_info) (h : vectors)
    : M (Z * fuse_file_info * vectors) :=
  if String.eqb path "/register" then
    let pathBuf := new_vector h in
    mret (0, {| flags := flags fi; fh := pathBuf |}, <[pathBuf := []]> h)
  else if String.eqb path "/map"
          && ((Z.land (flags fi) O_RDWR =? 0) && (Z.land (flags fi) O_WRONLY =? 0))
  then mret (0, fi, h)
  else
    try_catch
      (registeredAppImage ← mapPathToRegisteredAppImage w path;
       mret (0, {| flags := flags fi; fh := Int.to_size_t (_fd registeredAppImage) |}, h))
      is_CouldNotFindRegisteredAppImageError
      (fun _ => mret (- ENOENT, fi, h)).

(** [write]: [None] when [fi->fh] is no vector. *)
Definition write (path : string) (buf : list ascii) (fi : fuse_file_info) (h : vectors)
    : option (Z * vectors) :=
  if negb (String.eqb path "/register") then Some (- ENOENT, h)
  else
    match h !! fh fi with
    | Some dataBuf => Some (Z.of_nat (length buf), <[fh fi := dataBuf ++ buf]> h)
    | None => None
    end.

(** [truncate] *)
Definition truncate (path : string) : Z :=
  if String.eqb path "/register" then 0 else - EPERM.

Definition is_line_ending (c : ascii) : bool :=
  Ascii.eqb c "010"%char || Ascii.eqb c "013"%char.

(** The loop [while (s.back() == '\n' || s.back() == '\r') s.pop_back();]
    on the characters of [s] from the last to the first.  [back()] of an
    empty string has no defined result: [None]. *)
Fixpoint pop_line_endings (reversed : list ascii) : option (list ascii) :=
  match reversed with
  | [] => None
  | c :: r => if is_line_ending c then pop_line_endings r else Some reversed
  end.

Definition strip_line_endings (s : list ascii) : option (list ascii) :=
  reverse <$> pop_line_endings (reverse s).

(** [release]; the two log lines are left out. *)
Definition release (w : World) (path : string) (fi : fuse_file_info) (h : vectors)
    : M (Z * fuse_file_info * vectors) :=
  if String.eqb path "/register" && negb (fh fi =? 0) then
    match h !! fh fi with
    | None => undefined
    | Some buf =>
        match strip_line_endings buf with
        | None => undefined
        | Some requestedPath =>
            try_catch
              (try_catch
                 (registerAppImage w (string_of_list_ascii requestedPath);; mret tt)
                 is_AppImageAlreadyRegisteredError
                 (fun _ => mret tt))
              is_AppImageLauncherFSError
              (fun _ => mret tt);;
            mret (0, {| flags := flags fi; fh := 0 |}, delete (fh fi) h)
        end
    end
  else mret (0, fi, h).


(** ** Runs of the registry *)

(** The calls that touch the statics, each with the world it runs in. *)
Inductive request : Type :=
| Register (w : World) (path : string)
| Lookup (w : World) (path : string)
| Listing (w : World).

(** One call: the id it assigned, if it is a successful registration, and
    the statics it leaves. *)
Definition serve (r : request) (st : State) : option Z * State :=
  match r with
  | Register w path =>
      match registerAppImage w path st with
      | (Returns id, st') => (Some id, st')
      | (_, st') => (None, st')
      end
  | Lookup w path => (None, (mapPathToRegisteredAppImage w path st).2)
  | Listing w => (None, (generateTextMap w st).2)
  end.

(** The ids assigned along a run, in the order of assignment, and the
    statics at its end. *)
Fixpoint run (rs : list request) (st : State) : list Z * State :=
  match rs with
  | [] => ([], st)
  | r :: rs =>
      let '(o, st') := serve r st in
      let '(ids, st'') := run rs st' in
      (match o with Some id => id :: ids | None => ids end, st'')
  end.

(** ** The rest of [PrivateData] *)

(** [struct stat], the fields that fs.cpp sets or hands on; a time is a
    [timespec], seconds and nanoseconds. *)
Record stat : Type := {
  st_mode : Z;
  st_nlink : Z;
  st_uid : Z;
  st_gid : Z;
  st_size : Z;
  st_atim : Z * Z;
  st_mtim : Z * Z;
}.

(** What [getattr] asks of the host besides the disk: the ids of the
    process, the static [timeOfCreation], and [::stat(path, st)] ([None]:
    the call fails). *)
Record Host : Type := {
  getuid : Z;
  getgid : Z;
  timeOfCreation : Z;
  sys_stat : string -> option stat;
}.

(** File type bits and the permission bits of fs.cpp (octal 040000,
    0100000, 0550, 0444, 0660, 0555). *)
Definition S_IFDIR : Z := 16384.
Definition S_IFREG : Z := 32768.
Definition DEFAULT_MODE : Z := 360.
Definition MODE_0444 : Z := 292.
Definition MODE_0660 : Z := 432.
Definition MODE_0555 : Z := 365.

(** [std::count(s.begin(), s.end(), '/')] *)
Fixpoint count_slash (s : string) : Z :=
  match s with
  | EmptyString => 0
  | String c r => (if Ascii.eqb c "/"%char then 1 else 0) + count_slash r
  end.

(** [s.find('/')]: the position of the first slash ([None]: [npos]). *)
Fixpoint find_slash (s : string) : option Z :=
  match s with
  | EmptyString => None
  | String c r => if Ascii.eqb c "/"%char then Some 0 else Z.succ <$> find_slash r
  end.

(** How [getattr] ends: with a return value and the [stat] buffer, with
    an exception that the resolver or the listing lets out (the errors of
    error.h, [std::out_of_range], the error of Boost), or with the
    [std::runtime_error] it throws itself when [::stat] fails. *)
Inductive getattr_outcome : Type :=
| getattr_returns (r : Z) (st : stat)
| getattr_throws (e : exn)
| getattr_runtime_error
| getattr_undefined.

(** The synthetic entries: what [getattr] writes into the buffer for the
    root and the two control files. *)
Definition synthetic_stat (host : Host) (st : stat) (mode nlink : Z) (size : option Z) : stat :=
  {| st_mode := mode;
     st_nlink := nlink;
     st_uid := getuid host;
     st_gid := getgid host;
     st_size := match size with Some n => n | None => st_size st end;
     st_atim := (timeOfCreation host, 0);
     st_mtim := (timeOfCreation host, 0) |}.

(** [getattr]; the line written to [std::cerr] is left out. *)
Definition getattr (w : World) (host : Host) (path : string) (st : stat) (s : State)
    : getattr_outcome * State :=
  if negb (count_slash path =? 1) then (getattr_throws InvalidPathError, s)
  else if negb (bool_decide (find_slash path = Some 0)) then (getattr_throws InvalidPathError, s)
  else if String.eqb path "/" then
    (getattr_returns 0 (synthetic_stat host st (Z.lor S_IFDIR DEFAULT_MODE) 2 None), s)
  else if String.eqb path "/map" then
    match generateTextMap w s with
    | (Returns map, s') =>
        (getattr_returns 0
           (synthetic_stat host st (Z.lor S_IFREG MODE_0444) 1
              (Some (Z.of_nat (String.length map)))), s')
    | (Throws e, s') => (getattr_throws e, s')
    | (Undefined, s') => (getattr_undefined, s')
    end
  else if String.eqb path "/register" then
    (getattr_returns 0
       (synthetic_stat host st (Z.lor S_IFREG MODE_0660) 1
          (Some (Z.of_nat (String.length REGISTER_MSG)))), s)
  else
    match mapPathToRegisteredAppImage w path s with
    | (Returns registeredAppImage, s') =>
        match sys_stat host (_path registeredAppImage) with
        | None => (getattr_runtime_error, s')
        | Some st' =>
            (getattr_returns 0
               {| st_mode := Z.lor S_IFREG MODE_0555;
                  st_nlink := 1;
                  st_uid := st_uid st';
                  st_gid := st_gid st';
                  st_size := st_size st';
                  st_atim := st_atim st';
                  st_mtim := st_mtim st' |}, s')
        end
    | (Throws e, s') =>
        if is_CouldNotFindRegisteredAppImageError e then (getattr_returns (- ENOENT) st, s')
        else (getattr_throws e, s')
    | (Undefined, s') => (getattr_undefined, s')
    end.

(** The loop of the constructor of [PrivateData] over the paths that the
    directory iterator yields: every regular file is registered, an
    exception of a registration ends the loop. *)
Fixpoint register_each (w : World) (paths : list string) : M unit :=
  match paths with
  | [] => mret tt
  | path :: rest =>
      (regular ← lift (bf_is_regular_file w path);
       if negb regular then mret tt
       else registerAppImage w path;; mret tt);;
      register_each w rest
  end.

(** The part of the constructor of [PrivateData] that fills the registry;
    the mount point and the two [system] calls are left out.
    [entries] is what [bf::directory_iterator(applicationsDir)] yields. *)
Definition PrivateData_registrations (w : World) (applicationsDir : string)
    (entries : list string) : M unit :=
  directory ← lift (bf_is_directory w applicationsDir);
  if (directory : bool) then register_each w entries else mret tt.

(** [generateMountpointPath], for the user id [uid] ([std::to_string] of
    an unsigned 32-bit number). *)
Definition generateMountpointPath (uid : Z) : string :=
  "/run/user/" +:+ Text.dec_digits 10 uid "" +:+ "/appimagelauncherfs/".

(** The line of the listing for one entry. *)
Definition listing_line (entry : Z * RegisteredAppImage) : string :=
  generateFilenameForId entry.1 +:+ " -> " +:+ _path entry.2 +:+ endl.

(** Whether the file of an entry is on disk. *)
Definition live (w : World) (entry : Z * RegisteredAppImage) : Prop :=
  RegisteredAppImage_.checkExistsOnDisk w entry.2 = Returns true.

Global Instance live_dec (w : World) (entry : Z * RegisteredAppImage) : Decision (live w entry).
Proof.
  unfold live. destruct (RegisteredAppImage_.checkExistsOnDisk w entry.2) as [[|] | e |].
  - left. reflexivity.
  - right. discriminate.
  - right. discriminate.
  - right. discriminate.
Defined.

(** What holds of the statics as long as the counter has not wrapped:
    the keys are the ids handed out so far, every entry carries its key
    and an open descriptor. *)
Definition registry_ok (st : State) : Prop :=
  0 <= counter st
  /\ forall k e, registeredAppImages st !! k = Some e ->
       0 <= k < counter st /\ _id e = k /\ 0 <= _fd e.

(** A host for the examples: [/a] and [/b] are files of 16 bytes, owned
    by user and group 1000, with mode 0644. *)
Definition host_live : Host :=
  {| getuid := 1000;
     getgid := 1000;
     timeOfCreation := 1700000000;
     sys_stat := fun p =>
       if String.eqb p "/a" || String.eqb p "/b" then
         Some {| st_mode := Z.lor S_IFREG 420; st_nlink := 2; st_uid := 1000; st_gid := 1000;
                 st_size := 16; st_atim := (1600000000, 5); st_mtim := (1600000001, 7) |}
       else None |}.

Definition stat_zero : stat :=
  {| st_mode := 0; st_nlink := 0; st_uid := 0; st_gid := 0; st_size := 0;
     st_atim := (0, 0); st_mtim := (0, 0) |}.

(** ** Worlds and states of the examples *)

(** The first bytes of a type-2 AppImage: the ELF identification, with the
    bytes ['A'] ['I'] [0x02] at positions 8, 9 and 10. *)
Definition appimage_bytes : list ascii :=
  [ "127"; "E"; "L"; "F"; "002"; "001"; "001"; "000";
    "A"; "I"; "002"; "000"; "000"; "000"; "000"; "000" ]%char.

(** A world whose working directory is [/home/user], with the given files;
    every file but the ones of [unreadable] opens, on descriptor 3; a loop
    over the map meets the greater key first. *)
Definition world_with (files : list (string * file_type)) (unreadable : list string) : World :=
  {| current_path := "/home/user";
     file_at := fun p => snd <$> List.find (fun f : string * file_type => String.eqb p f.1) files;
     open_rdonly := fun p =>
       match List.find (fun f : string * file_type => String.eqb p f.1) files with
       | Some _ => if existsb (String.eqb p) unreadable then -1 else 3
       | None => -1
       end;
     fd_contents := fun fd => if fd =? 3 then Some appimage_bytes else None;
     iteration_rank := Z.opp |}.

Definition world_live : World :=
  world_with [("/a", regular_file); ("/b", regular_file); ("/locked", regular_file);
              ("/home/user/x", regular_file)]
             ["/locked"].

(** The same machine after [/a] was deleted. *)
Definition world_gone : World :=
  world_with [("/b", regular_file); ("/locked", regular_file);
              ("/home/user/x", regular_file)]
             ["/locked"].

(** A machine whose applications directory [/apps] holds two AppImages. *)
Definition world_apps : World :=
  world_with [("/apps", directory_file); ("/apps/one.AppImage", regular_file);
              ("/apps/two.AppImage", regular_file)]
             [].

(** A machine on which [/secret] cannot be searched: the status query of
    [/secret/app] fails. *)
Definition world_denied : World :=
  world_with [("/a", regular_file); ("/secret/app", status_error)] ["/secret/app"].

(** The statics after [/a] was registered. *)
Definition state_a : State := (registerAppImage world_live "/a" initial_state).2.

(** The statics after [/a] and [/b] were registered. *)
Definition state_ab : State :=
  {| registeredAppImages :=
       <[ 0 := {| _id := 0; _path := "/a"; _fd := 3 |} ]>
         {[ 1 := {| _id := 1; _path := "/b"; _fd := 3 |} ]};
     counter := 2 |}.

(** The statics after the relative path [x] was registered twice. *)
Definition state_xx : State :=
  (registerAppImage world_live "x" (registerAppImage world_live "x" initial_state).2).2.

(** A run that drives the counter to its last value, on the file that
    cannot be opened, and then registers two files. *)
Definition overflow_run : list request :=
  repeat (Register world_live "/locked") (Z.to_nat Int.INT_MAX)
  ++ [Register world_live "/a"; Register world_live "/b"].

(** * Properties *)

(** ** Text *)

Example generateFilenameForId_7 : generateFilenameForId 7 = "0007.AppImage".
Proof. reflexivity. Qed.

Example generateFilenameForId_12345 : generateFilenameForId 12345 = "12345.AppImage".
Proof. reflexivity. Qed.

Example generateFilenameForId_minus_1 : generateFilenameForId (-1) = "00-1.AppImage".
Proof. reflexivity. Qed.

Example stoi_0007 : Text.stoi "0007" = Text.stoi_value 7.
Proof. reflexivity. Qed.

Example stoi_too_large : Text.stoi "99999999999" = Text.stoi_out_of_range.
Proof. reflexivity. Qed.

Example stoi_no_digit : Text.stoi "abc" = Text.stoi_invalid_argument.
Proof. reflexivity. Qed.

Lemma digit_char_spec (d : Z) :
  0 <= d < 10 ->
  Text.is_digit (Text.digit_char d) = true /\ Text.digit_value (Text.digit_char d) = d.
Proof.
  intros Hd.
  assert (d = 0 \/ d = 1 \/ d = 2 \/ d = 3 \/ d = 4 \/ d = 5 \/ d = 6 \/ d = 7
          \/ d = 8 \/ d = 9) as Hcases by lia.
  repeat (destruct Hcases as [-> | Hcases]; [split; reflexivity |]).
  subst d. split; reflexivity.
Qed.

Lemma parse_dec_digits (fuel : nat) : forall (n : Z) (r : string),
  0 <= n < 10 ^ Z.of_nat fuel ->
  Text.parse_digits 0 (Text.dec_digits fuel n r) = Text.parse_digits n r.
Proof.
  induction fuel as [| f IH]; intros n r Hn.
  - simpl in *. replace n with 0 by lia. reflexivity.
  - cbn [Text.dec_digits].
    assert (0 <= n mod 10 < 10) as Hd by (apply Z.mod_pos_bound; lia).
    destruct (digit_char_spec _ Hd) as [Hdig Hval].
    pose proof (Z.div_mod n 10 ltac:(lia)) as Hdm.
    destruct (n / 10 =? 0) eqn:Hq.
    + apply Z.eqb_eq in Hq. cbn [Text.parse_digits]. rewrite Hdig, Hval.
      f_equal. lia.
    + apply Z.eqb_neq in Hq. rewrite IH.
      * cbn [Text.parse_digits]. rewrite Hdig, Hval. f_equal. lia.
      * rewrite Nat2Z.inj_succ, Z.pow_succ_r in Hn by lia.
        split; [apply Z.div_pos; lia | apply Z.div_lt_upper_bound; lia].
Qed.

Lemma all_digits_dec_digits (fuel : nat) : forall (n : Z) (r : string),
  0 <= n -> Text.all_digits r = true -> Text.all_digits (Text.dec_digits fuel n r) = true.
Proof.
  induction fuel as [| f IH]; intros n r Hn Hr; [exact Hr |].
  cbn [Text.dec_digits].
  assert (0 <= n mod 10 < 10) as Hd by (apply Z.mod_pos_bound; lia).
  destruct (digit_char_spec _ Hd) as [Hdig _].
  assert (Text.all_digits (String (Text.digit_char (n mod 10)) r) = true) as Hacc.
  { cbn [Text.all_digits]. rewrite Hdig, Hr. reflexivity. }
  destruct (n / 10 =? 0); [exact Hacc |].
  apply IH; [apply Z.div_pos; lia | exact Hacc].
Qed.

Lemma dec_digits_not_empty (fuel : nat) : forall (n : Z) (r : string),
  Text.dec_digits (S fuel) n r <> "".
Proof.
  induction fuel as [| f IH]; intros n r.
  - cbn. destruct (n / 10 =? 0); discriminate.
  - cbn [Text.dec_digits]. destruct (n / 10 =? 0); [discriminate |]. apply IH.
Qed.

Lemma fill_zero_digits (k : nat) (s : string) :
  Text.all_digits s = true ->
  Text.all_digits (Text.fill k "0"%char s) = true
  /\ Text.parse_digits 0 (Text.fill k "0"%char s) = Text.parse_digits 0 s.
Proof.
  intros Hs. induction k as [| k [IH1 IH2]]; [split; [exact Hs | reflexivity] |].
  split; cbn; [exact IH1 | exact IH2].
Qed.

Lemma fill_not_empty (k : nat) (c : ascii) (s : string) :
  s <> "" -> Text.fill k c s <> "".
Proof. destruct k; [trivial | discriminate]. Qed.

(** A text of digits, not empty, is read back by [std::stoi] as its
    value, as long as the value fits an [int]. *)
Lemma stoi_all_digits (s : string) :
  Text.all_digits s = true -> s <> "" ->
  Int.in_int (Text.parse_digits 0 s) = true ->
  Text.stoi s = Text.stoi_value (Text.parse_digits 0 s).
Proof.
  intros Hs Hne Hin. destruct s as [| c s]; [congruence |].
  cbn in Hs. apply andb_true_iff in Hs as [Hc Hs].
  unfold Text.is_digit in Hc.
  unfold Text.stoi.
  assert (Text.skip_space (String c s) = String c s) as ->.
  { cbn [Text.skip_space].
    destruct c as [[] [] [] [] [] [] [] []]; try discriminate Hc; reflexivity. }
  assert ((match String c s with
           | String "-"%char r => (true, r)
           | String "+"%char r => (false, r)
           | _ => (false, String c s)
           end) = (false, String c s)) as ->.
  { destruct c as [[] [] [] [] [] [] [] []]; try discriminate Hc; reflexivity. }
  cbn [Text.starts_with_digit]. unfold Text.is_digit.
  destruct (Ascii.is_nat c); [| discriminate].
  rewrite Hin. reflexivity.
Qed.

Lemma strsep_dot_digits (s r : string) :
  Text.all_digits s = true ->
  Text.strsep_dot (s +:+ String "."%char r) = s.
Proof.
  induction s as [| c s IH]; intros Hs; [reflexivity |].
  cbn in Hs. apply andb_true_iff in Hs as [Hc Hs].
  change (String c s +:+ String "."%char r) with (String c (s +:+ String "."%char r)).
  cbn [Text.strsep_dot].
  assert (Ascii.eqb c "."%char = false) as ->.
  { unfold Text.is_digit in Hc.
    destruct c as [[] [] [] [] [] [] [] []]; try discriminate Hc; reflexivity. }
  f_equal. apply IH, Hs.
Qed.

(** The numeral of a canonical name: digits only, and the id is their
    value. *)
Lemma canonical_numeral (id : Z) :
  0 <= id <= Int.INT_MAX ->
  let numeral := Text.setw_setfill 4 "0"%char (Text.int_to_decimal id) in
  Text.all_digits numeral = true /\ numeral <> "" /\ Text.parse_digits 0 numeral = id.
Proof.
  intros Hid numeral. subst numeral. unfold Text.setw_setfill, Text.int_to_decimal.
  destruct (id <? 0) eqn:Hneg; [apply Z.ltb_lt in Hneg; lia |].
  assert (Text.all_digits (Text.dec_digits 10 id "") = true) as Hall
    by (apply all_digits_dec_digits; [lia | reflexivity]).
  destruct (fill_zero_digits (4 - String.length (Text.dec_digits 10 id "")) _ Hall)
    as [Hfill Hparse].
  split; [exact Hfill |]. split.
  - apply fill_not_empty, dec_digits_not_empty.
  - rewrite Hparse, parse_dec_digits; [reflexivity |].
    unfold Int.INT_MAX in Hid. change (10 ^ Z.of_nat 10) with 10000000000. lia.
Qed.

(** [std::stoi] reads the id back from the numeral of its canonical
    name. *)
Lemma stoi_canonical_numeral (id : Z) :
  0 <= id <= Int.INT_MAX ->
  Text.stoi (Text.setw_setfill 4 "0"%char (Text.int_to_decimal id)) = Text.stoi_value id.
Proof.
  intros Hid. destruct (canonical_numeral id Hid) as (Hall & Hne & Hval).
  rewrite stoi_all_digits; [congruence | exact Hall | exact Hne |].
  rewrite Hval. unfold Int.in_int, Int.INT_MIN, Int.INT_MAX in *.
  apply andb_true_iff. split; apply Z.leb_le; lia.
Qed.

Lemma strsep_dot_canonical (id : Z) :
  0 <= id <= Int.INT_MAX ->
  Text.strsep_dot ("/" +:+ generateFilenameForId id)
  = String "/"%char (Text.setw_setfill 4 "0"%char (Text.int_to_decimal id)).
Proof.
  intros Hid. destruct (canonical_numeral id Hid) as (Hall & _ & _).
  unfold generateFilenameForId.
  change ("/" +:+ ?s) with (String "/"%char s).
  cbn [Text.strsep_dot]. change (Ascii.eqb "/"%char "."%char) with false. cbv iota.
  f_equal. apply (strsep_dot_digits _ "AppImage" Hall).
Qed.

(** ** The registry *)

Lemma State_eta (st : State) :
  {| registeredAppImages := registeredAppImages st; counter := counter st |} = st.
Proof. destruct st; reflexivity. Qed.

(** Unfolds the monad of the statics in the goal. *)
Ltac unfold_M :=
  unfold mbind, M_bind, mret, M_ret, mthrow, M_throw, try_catch, undefined, lift,
    get_registeredAppImages, set_registeredAppImages, post_increment_counter;
  cbn beta iota.

(** No regular file is behind the default-constructed entry. *)
Lemma default_not_on_disk (w : World) :
  RegisteredAppImage_.checkExistsOnDisk w RegisteredAppImage_.default = Returns false.
Proof. reflexivity. Qed.

(** A status query answers or throws the error of Boost. *)
Lemma bf_is_regular_file_outcome (w : World) (p : string) :
  (exists b, bf_is_regular_file w p = Returns b)
  \/ bf_is_regular_file w p = Throws boost_filesystem_error.
Proof.
  unfold bf_is_regular_file. destruct (bf_status w p) as [[| | |] |]; eauto.
Qed.

Lemma checkExistsOnDisk_outcome (w : World) (r : RegisteredAppImage) :
  (exists b, RegisteredAppImage_.checkExistsOnDisk w r = Returns b)
  \/ RegisteredAppImage_.checkExistsOnDisk w r = Throws boost_filesystem_error.
Proof. apply bf_is_regular_file_outcome. Qed.

(** On a canonical name the resolver gets as far as the look-up of the
    id. *)
Lemma mapPath_canonical (w : World) (id : Z) (st : State) :
  0 <= id <= Int.INT_MAX ->
  mapPathToRegisteredAppImage w ("/" +:+ generateFilenameForId id) st
  = (registeredAppImage ← index id;
     onDisk ← lift (RegisteredAppImage_.checkExistsOnDisk w registeredAppImage);
     if negb onDisk then
       erase id;; mthrow CouldNotFindRegisteredAppImageError
     else mret registeredAppImage) st.
Proof.
  intros Hid. unfold mapPathToRegisteredAppImage.
  rewrite (strsep_dot_canonical id Hid), (stoi_canonical_numeral id Hid).
  rewrite String.eqb_refl. reflexivity.
Qed.

Lemma mapPath_registered (w : World) (st : State) (id : Z) (e : RegisteredAppImage) :
  0 <= id <= Int.INT_MAX ->
  registeredAppImages st !! id = Some e ->
  RegisteredAppImage_.checkExistsOnDisk w e = Returns true ->
  mapPathToRegisteredAppImage w ("/" +:+ generateFilenameForId id) st = (Returns e, st).
Proof.
  intros Hid He Hdisk. rewrite (mapPath_canonical w id st Hid).
  unfold index. unfold_M. rewrite He. cbn. rewrite Hdisk. reflexivity.
Qed.

(** When the status query of the stored path fails, the error of Boost
    leaves the resolver and nothing is erased. *)
Lemma mapPath_status_error (w : World) (st : State) (id : Z) (e : RegisteredAppImage) :
  0 <= id <= Int.INT_MAX ->
  registeredAppImages st !! id = Some e ->
  RegisteredAppImage_.checkExistsOnDisk w e = Throws boost_filesystem_error ->
  mapPathToRegisteredAppImage w ("/" +:+ generateFilenameForId id) st
  = (Throws boost_filesystem_error, st).
Proof.
  intros Hid He Hdisk. rewrite (mapPath_canonical w id st Hid).
  unfold index. unfold_M. rewrite He. cbn. rewrite Hdisk. reflexivity.
Qed.

Lemma mapPath_not_canonical (w : World) (st : State) (path numeral : string) :
  Text.strsep_dot path = String "/"%char numeral ->
  Text.stoi numeral = Text.stoi_invalid_argument
  \/ (exists id, Text.stoi numeral = Text.stoi_value id
                 /\ path <> "/" +:+ generateFilenameForId id) ->
  mapPathToRegisteredAppImage w path st = (Throws CouldNotFindRegisteredAppImageError, st).
Proof.
  intros Hsep [Hinv | (id & Hval & Hne)]; unfold mapPathToRegisteredAppImage; rewrite Hsep.
  - rewrite Hinv. reflexivity.
  - rewrite Hval. apply String.eqb_neq in Hne. rewrite Hne. reflexivity.
Qed.

(** A loop over the map meets every entry once, in some order. *)
Lemma iteration_Permutation (w : World) (m : gmap Z RegisteredAppImage) :
  iteration w m ≡ₚ map_to_list m.
Proof. apply merge_sort_Permutation. Qed.

Lemma elem_of_iteration (w : World) (m : gmap Z RegisteredAppImage) (k : Z)
    (e : RegisteredAppImage) :
  (k, e) ∈ iteration w m <-> m !! k = Some e.
Proof. rewrite (iteration_Permutation w m). apply elem_of_map_to_list. Qed.

Lemma iteration_empty (w : World) : iteration w ∅ = [].
Proof. unfold iteration. rewrite map_to_list_empty. reflexivity. Qed.

Lemma bf_path_equal_refl (p : string) : bf_path_equal p p = true.
Proof. unfold bf_path_equal. apply bool_decide_eq_true. reflexivity. Qed.

(** The search of [registerAppImage] finds the only id whose path is equal
    to the given one, whatever the order of the loop. *)
Lemma find_registered_path (w : World) (m : gmap Z RegisteredAppImage) (p : string) (k : Z)
    (e : RegisteredAppImage) :
  m !! k = Some e -> bf_path_equal p (_path e) = true ->
  (forall k' e', m !! k' = Some e' -> bf_path_equal p (_path e') = true -> k' = k) ->
  exists e', List.find (fun r : Z * RegisteredAppImage => bf_path_equal p (_path r.2))
                       (iteration w m) = Some (k, e').
Proof.
  intros He Hp Huniq.
  destruct (List.find _ (iteration w m)) as [[k' e'] |] eqn:Hfind.
  - apply find_some in Hfind as [Hin Heq]. cbn in Heq.
    apply list_elem_of_In, elem_of_iteration in Hin.
    exists e'. f_equal. f_equal. apply (Huniq k' e' Hin Heq).
  - exfalso.
    assert (In (k, e) (iteration w m)) as Hin
      by (apply list_elem_of_In, elem_of_iteration, He).
    pose proof (find_none _ _ Hfind (k, e) Hin) as Hno.
    cbn in Hno. rewrite Hp in Hno. discriminate.
Qed.

(** [registerAppImage], with the monad unfolded. *)
Lemma registerAppImage_eq (w : World) (p : string) (st : State) :
  registerAppImage w p st
  = match bf_exists w p with
    | Throws e => (Throws e, st)
    | Undefined => (Undefined, st)
    | Returns false => (Throws FileNotFoundError, st)
    | Returns true =>
      match List.find (fun r : Z * RegisteredAppImage => bf_path_equal p (_path r.2))
                      (iteration w (registeredAppImages st)) with
      | Some r => (Throws (AppImageAlreadyRegisteredError r.1), st)
      | None =>
          let fd := open_rdonly w (bf_absolute w p) in
          let next := Int.wrap_int (counter st + 1) in
          if fd <? 0 then
            (Throws CouldNotOpenFileError,
             {| registeredAppImages := registeredAppImages st; counter := next |})
          else
            (Returns (counter st),
             {| registeredAppImages :=
                  match registeredAppImages st !! counter st with
                  | Some _ => registeredAppImages st
                  | None =>
                      <[counter st := {| _id := counter st; _path := bf_absolute w p;
                                         _fd := fd |}]> (registeredAppImages st)
                  end;
                counter := next |})
      end
    end.
Proof.
  unfold registerAppImage, lift. unfold_M.
  destruct (bf_exists w p) as [[|] | e |]; try reflexivity. cbn.
  destruct (List.find _ _) as [r |]; [reflexivity |].
  unfold emplace, RegisteredAppImage_.make, RegisteredAppImage_.copy,
    RegisteredAppImage_.openFile. cbn.
  destruct (open_rdonly w (bf_absolute w p) <? 0) eqn:Hopen; unfold_M; cbn; [reflexivity |].
  rewrite Hopen. unfold_M. cbn.
  destruct (registeredAppImages st !! counter st); reflexivity.
Qed.

(** [bf::exists] throws nothing but the error of Boost, and this error
    leaves [registerAppImage] with the statics as they were. *)
Lemma bf_exists_outcome (w : World) (p : string) :
  (exists b, bf_exists w p = Returns b) \/ bf_exists w p = Throws boost_filesystem_error.
Proof.
  unfold bf_exists. destruct (bf_status w p) as [[| | |] |]; eauto.
Qed.

Lemma registerAppImage_status_error (w : World) (p : string) (st : State) :
  bf_exists w p = Throws boost_filesystem_error ->
  registerAppImage w p st = (Throws boost_filesystem_error, st).
Proof. intros Hex. rewrite registerAppImage_eq, Hex. reflexivity. Qed.

(** Once [bf::exists] has answered, [registerAppImage] ends by returning
    or by throwing one of the errors of error.h. *)
Lemma registerAppImage_outcome (w : World) (p : string) (st : State) (b : bool) :
  bf_exists w p = Returns b ->
  match (registerAppImage w p st).1 with
  | Returns _ => True
  | Throws e => is_AppImageLauncherFSError e = true
  | Undefined => False
  end.
Proof.
  intros Hex. rewrite registerAppImage_eq, Hex. destruct b; [| reflexivity].
  destruct (List.find _ _) as [r |]; [reflexivity |]. cbn.
  destruct (open_rdonly w (bf_absolute w p) <? 0); [reflexivity | exact I].
Qed.

(** ** Path resolution *)

(** C10.  For every canonical virtual name [/<id padded to four
    digits>.AppImage] whose id has no entry, resolution throws
    [CouldNotFindRegisteredAppImageError] and leaves the statics as they
    were: the entry that [registeredAppImages[id]] default-inserts is
    erased again before the throw. *)
Theorem mapPath_unregistered_id_leaves_registry (w : World) (st : State) (id : Z) :
  0 <= id <= Int.INT_MAX ->
  registeredAppImages st !! id = None ->
  mapPathToRegisteredAppImage w ("/" +:+ generateFilenameForId id) st
  = (Throws CouldNotFindRegisteredAppImageError, st).
Proof.
  intros Hid Hnone. rewrite (mapPath_canonical w id st Hid).
  unfold index, erase. unfold_M. rewrite Hnone. cbn.
  rewrite (delete_insert_id _ _ _ Hnone). rewrite State_eta. reflexivity.
Qed.

Lemma mapPath_unregistered_id_leaves_registry_witness :
  mapPathToRegisteredAppImage world_live "/0007.AppImage" state_a
  = (Throws CouldNotFindRegisteredAppImageError, state_a).
Proof.
  apply (mapPath_unregistered_id_leaves_registry world_live state_a 7).
  - unfold Int.INT_MAX. lia.
  - vm_compute. reflexivity.
Defined.

(** C2, as the code has it.  For every registered id (an [int] from 0 up)
    whose file is still a regular file on disk, the canonical virtual name
    resolves to exactly that entry and the statics are unchanged.  For
    every path whose first part begins with the separator, resolution
    throws [CouldNotFindRegisteredAppImageError], and not
    [InvalidPathError], when the numeral holds no number at all, and when
    it holds an [int] whose canonical name is not the path (another
    padding width, case or suffix). *)
Theorem mapPath_resolves_canonical_names_only :
  (forall (w : World) (st : State) (id : Z) (e : RegisteredAppImage),
      0 <= id <= Int.INT_MAX ->
      registeredAppImages st !! id = Some e ->
      RegisteredAppImage_.checkExistsOnDisk w e = Returns true ->
      mapPathToRegisteredAppImage w ("/" +:+ generateFilenameForId id) st = (Returns e, st))
  /\ (forall (w : World) (st : State) (path numeral : string),
      Text.strsep_dot path = String "/"%char numeral ->
      Text.stoi numeral = Text.stoi_invalid_argument
      \/ (exists id, Text.stoi numeral = Text.stoi_value id
                     /\ path <> "/" +:+ generateFilenameForId id) ->
      mapPathToRegisteredAppImage w path st
      = (Throws CouldNotFindRegisteredAppImageError, st)).
Proof.
  split.
  - intros w st id e. apply mapPath_registered.
  - intros w st path numeral. apply mapPath_not_canonical.
Qed.

Lemma mapPath_resolves_canonical_names_only_witness :
  mapPathToRegisteredAppImage world_live "/0000.AppImage" state_a
  = (Returns {| _id := 0; _path := "/a"; _fd := 3 |}, state_a)
  /\ mapPathToRegisteredAppImage world_live "/x.AppImage" state_a
     = (Throws CouldNotFindRegisteredAppImageError, state_a)
  /\ mapPathToRegisteredAppImage world_live "/0.AppImage" state_a
     = (Throws CouldNotFindRegisteredAppImageError, state_a)
  /\ mapPathToRegisteredAppImage world_live "/0000.appimage" state_a
     = (Throws CouldNotFindRegisteredAppImageError, state_a)
  /\ mapPathToRegisteredAppImage world_live "/0000.AppImage.bak" state_a
     = (Throws CouldNotFindRegisteredAppImageError, state_a).
Proof.
  pose proof mapPath_resolves_canonical_names_only as [Hcanonical Hother].
  split; [| split; [| split; [| split]]].
  - apply (Hcanonical world_live state_a 0).
    + unfold Int.INT_MAX. lia.
    + vm_compute. reflexivity.
    + vm_compute. reflexivity.
  - apply (Hother world_live state_a "/x.AppImage" "x"); [reflexivity |].
    left. reflexivity.
  - apply (Hother world_live state_a "/0.AppImage" "0"); [reflexivity |].
    right. exists 0. split; [reflexivity | discriminate].
  - apply (Hother world_live state_a "/0000.appimage" "0000"); [reflexivity |].
    right. exists 0. split; [reflexivity | discriminate].
  - apply (Hother world_live state_a "/0000.AppImage.bak" "0000"); [reflexivity |].
    right. exists 0. split; [reflexivity | discriminate].
Defined.

(** C2 as stated does not hold.  Id 0 is registered for [/a]; once [/a]
    is gone from the disk its canonical name throws
    [CouldNotFindRegisteredAppImageError] and the entry is erased.  And a
    numeral too large for an [int] does not parse, yet the resolver ends
    with [std::out_of_range], which is not
    [CouldNotFindRegisteredAppImageError]. *)
Lemma mapPath_stale_entry_and_out_of_range_numeral :
  (registeredAppImages state_a !! 0 = Some {| _id := 0; _path := "/a"; _fd := 3 |}
   /\ mapPathToRegisteredAppImage world_gone ("/" +:+ generateFilenameForId 0) state_a
      = (Throws CouldNotFindRegisteredAppImageError,
         {| registeredAppImages := ∅; counter := 1 |}))
  /\ (Text.stoi "99999999999" = Text.stoi_out_of_range
      /\ mapPathToRegisteredAppImage world_live "/99999999999.AppImage" state_a
         = (Throws std_out_of_range, state_a)).
Proof. repeat split; vm_compute; reflexivity. Qed.

(** ** Registration *)

(** C7.  For every state of the statics, [registerAppImage] on a path that
    does not exist on disk ([bf::exists] answers [false]) throws
    [FileNotFoundError], and the entries and the counter are unchanged. *)
Theorem registerAppImage_missing_path (w : World) (st : State) (p : string) :
  bf_exists w p = Returns false ->
  registerAppImage w p st = (Throws FileNotFoundError, st).
Proof. intros Hp. rewrite registerAppImage_eq, Hp. reflexivity. Qed.

Lemma registerAppImage_missing_path_witness :
  registerAppImage world_gone "/a" state_a = (Throws FileNotFoundError, state_a).
Proof.
  apply (registerAppImage_missing_path world_gone state_a "/a"). reflexivity.
Defined.

(** C5, as the code has it.  For every state of the statics, every order
    of the loop over the map and every path [p] that exists on disk and is
    equal, as a [bf::path], to the stored path of exactly one id [k],
    [registerAppImage p] throws [AppImageAlreadyRegisteredError] carrying
    [k], and the entries and the counter are unchanged. *)
Theorem registerAppImage_twice_AlreadyRegistered (w : World) (st : State) (p : string)
    (k : Z) (e : RegisteredAppImage) :
  bf_exists w p = Returns true ->
  registeredAppImages st !! k = Some e ->
  bf_path_equal p (_path e) = true ->
  (forall k' e', registeredAppImages st !! k' = Some e' ->
                 bf_path_equal p (_path e') = true -> k' = k) ->
  registerAppImage w p st = (Throws (AppImageAlreadyRegisteredError k), st).
Proof.
  intros Hp He Hpath Huniq. rewrite registerAppImage_eq, Hp.
  destruct (find_registered_path w _ p k e He Hpath Huniq) as [e' ->]. reflexivity.
Qed.

Lemma registerAppImage_twice_AlreadyRegistered_witness :
  registerAppImage world_live "/a" state_a
  = (Throws (AppImageAlreadyRegisteredError 0), state_a).
Proof.
  apply (registerAppImage_twice_AlreadyRegistered world_live state_a "/a" 0
           {| _id := 0; _path := "/a"; _fd := 3 |}).
  - reflexivity.
  - vm_compute. reflexivity.
  - reflexivity.
  - intros k' e' Hk' _.
    change (registeredAppImages state_a)
      with ({[ 0 := {| _id := 0; _path := "/a"; _fd := 3 |} ]} : gmap Z RegisteredAppImage)
      in Hk'.
    apply lookup_singleton_Some in Hk'. symmetry. apply Hk'.
Defined.

(** C5 as stated does not hold.  [/a] is registered under id 0; once
    [/a] is gone from the disk, registering it again throws
    [FileNotFoundError].  And after the relative path [x] was registered
    twice, [/home/user/x] is the stored path of ids 0 and 1, and
    registering it throws [AppImageAlreadyRegisteredError] with one of
    them only. *)
Lemma registerAppImage_twice_stale_or_duplicated :
  (registeredAppImages state_a !! 0 = Some {| _id := 0; _path := "/a"; _fd := 3 |}
   /\ registerAppImage world_gone "/a" state_a = (Throws FileNotFoundError, state_a))
  /\ (registeredAppImages state_xx !! 0 = Some {| _id := 0; _path := "/home/user/x"; _fd := 3 |}
      /\ registeredAppImages state_xx !! 1
         = Some {| _id := 1; _path := "/home/user/x"; _fd := 3 |}
      /\ registerAppImage world_live "/home/user/x" state_xx
         = (Throws (AppImageAlreadyRegisteredError 1), state_xx)).
Proof. repeat split; vm_compute; reflexivity. Qed.

Example path_elements_examples :
  path_elements "/w//a" = ["/"; "w"; "a"]
  /\ path_elements "/w/a/" = ["/"; "w"; "a"; "."]
  /\ path_elements "x/y" = ["x"; "y"]
  /\ path_elements "///a" = ["/"; "a"]
  /\ path_elements "//net//a" = ["//net"; "/"; "a"]
  /\ path_elements "/" = ["/"]
  /\ path_elements "" = [].
Proof. repeat split. Qed.

(** A second spelling of a registered path, with a separator repeated, is
    found by the search. *)
Example registerAppImage_repeated_separator :
  let w := world_with [("/w/a", regular_file); ("/w//a", regular_file)] [] in
  let st := (registerAppImage w "/w/a" initial_state).2 in
  registeredAppImages st = {[ 0 := {| _id := 0; _path := "/w/a"; _fd := 3 |} ]}
  /\ registerAppImage w "/w//a" st = (Throws (AppImageAlreadyRegisteredError 0), st).
Proof. split; vm_compute; reflexivity. Qed.

(** The order of the loop decides which of two equal entries is found. *)
Example registerAppImage_duplicate_in_the_other_order :
  let w := {| current_path := current_path world_live;
              file_at := file_at world_live;
              open_rdonly := open_rdonly world_live;
              fd_contents := fd_contents world_live;
              iteration_rank := fun k => k |} in
  registerAppImage w "/home/user/x" state_xx
  = (Throws (AppImageAlreadyRegisteredError 0), state_xx).
Proof. vm_compute. reflexivity. Qed.

(** ** Directory listing *)

(** C6, as the code has it.  [readdir] of the root hands out [.], [..],
    [map], [register] and then the canonical name of every id that is in
    the registry at that moment, each id once, whether or not its file is
    still on disk; [readdir] of any other path returns [-ENOENT] and hands
    out nothing. *)
Theorem readdir_lists_registry (st : State) :
  (exists ids : list Z,
      NoDup ids
      /\ (forall id, id ∈ ids <-> is_Some (registeredAppImages st !! id))
      /\ readdir "/" st
         = (Returns (0, ["."; ".."; "map"; "register"] ++ (generateFilenameForId <$> ids)),
            st))
  /\ (forall path, path <> "/" -> readdir path st = (Returns (- ENOENT, []), st)).
Proof.
  split.
  - exists ((map_to_list (registeredAppImages st)).*1). split; [| split].
    + apply NoDup_fst_map_to_list.
    + intros id. rewrite list_elem_of_fmap. split.
      * intros [[k e] [-> Hin]]. apply elem_of_map_to_list in Hin. cbn. eauto.
      * intros [e He]. exists (id, e). split; [reflexivity |].
        apply elem_of_map_to_list, He.
    + unfold readdir. cbn. unfold_M. do 2 f_equal. f_equal. do 4 f_equal.
      rewrite <- list_fmap_compose. reflexivity.
  - intros path Hpath. unfold readdir. apply String.eqb_neq in Hpath.
    rewrite Hpath. reflexivity.
Qed.

Lemma readdir_lists_registry_witness :
  (exists ids : list Z,
      NoDup ids
      /\ (forall id, id ∈ ids <-> is_Some (registeredAppImages state_a !! id))
      /\ readdir "/" state_a
         = (Returns (0, ["."; ".."; "map"; "register"] ++ (generateFilenameForId <$> ids)),
            state_a))
  /\ readdir "/0000.AppImage" state_a = (Returns (- ENOENT, []), state_a).
Proof.
  destruct (readdir_lists_registry state_a) as [Hroot Hother].
  split; [exact Hroot |]. apply Hother. discriminate.
Defined.

(** C6 as stated does not hold.  Id 0 is registered for [/a]; after [/a]
    is gone from the disk, the listing still hands out its name. *)
Lemma readdir_lists_stale_entry :
  registeredAppImages state_a !! 0 = Some {| _id := 0; _path := "/a"; _fd := 3 |}
  /\ RegisteredAppImage_.checkExistsOnDisk world_gone
       {| _id := 0; _path := "/a"; _fd := 3 |} = Returns false
  /\ readdir "/" state_a
     = (Returns (0, ["."; ".."; "map"; "register"; "0000.AppImage"]), state_a).
Proof. repeat split; vm_compute; reflexivity. Qed.

(** ** The ids handed out along a run *)

Lemma wrap_int_small (z : Z) :
  Int.INT_MIN <= z <= Int.INT_MAX -> Int.wrap_int z = z.
Proof.
  unfold Int.INT_MIN, Int.INT_MAX, Int.wrap_int. intros Hz.
  rewrite Z.mod_small; lia.
Qed.

Lemma bind_returns {A B} (m : M A) (k : A -> M B) (st st' : State) (a : A) :
  m st = (Returns a, st') -> (m ≫= k) st = k a st'.
Proof. intros Hm. unfold mbind, M_bind. rewrite Hm. reflexivity. Qed.

Lemma lift_returns {A B} (a : A) (k : A -> M B) (st : State) :
  (lift (Returns a) ≫= k) st = k a st.
Proof. reflexivity. Qed.

Lemma erase_then {A} (id : Z) (k : unit -> M A) (st : State) :
  (erase id ≫= k) st
  = k tt {| registeredAppImages := delete id (registeredAppImages st);
            counter := counter st |}.
Proof. reflexivity. Qed.

Lemma erase_all_counter (ids : list Z) : forall st : State,
  exists m, foldr (fun id rest => erase id;; rest) (mret tt) ids st
            = (Returns tt, {| registeredAppImages := m; counter := counter st |}).
Proof.
  induction ids as [| id ids IH]; intros st.
  - exists (registeredAppImages st). cbn. unfold_M. rewrite State_eta. reflexivity.
  - cbn [foldr]. rewrite erase_then.
    destruct (IH {| registeredAppImages := delete id (registeredAppImages st);
                    counter := counter st |}) as [m Hm].
    exists m. rewrite Hm. reflexivity.
Qed.

(** [generateTextMap] after its first loop. *)
Lemma generateTextMap_unfold (w : World) (st : State) :
  generateTextMap w st
  = match generateTextMap_loop w (iteration w (registeredAppImages st)) ("", ∅) with
    | Returns (map, idsToRemove) =>
        (foldr (fun id rest => erase id;; rest) (mret tt) (elements idsToRemove);;
         mret map) st
    | Throws e => (Throws e, st)
    | Undefined => (Undefined, st)
    end.
Proof.
  unfold generateTextMap.
  change ((get_registeredAppImages ≫= ?k) st) with (k (registeredAppImages st) st).
  cbn beta. unfold lift, mbind at 1, M_bind at 1.
  destruct (generateTextMap_loop _ _ _) as [[map idsToRemove] | e |]; reflexivity.
Qed.

Lemma generateTextMap_counter (w : World) (st : State) :
  counter (generateTextMap w st).2 = counter st.
Proof.
  rewrite generateTextMap_unfold.
  destruct (generateTextMap_loop _ _ _) as [[map idsToRemove] | e |]; [| reflexivity ..].
  destruct (erase_all_counter (elements idsToRemove) st) as [m Hm].
  rewrite (bind_returns _ _ _ _ _ Hm). reflexivity.
Qed.

Lemma mapPath_counter (w : World) (path : string) (st : State) :
  counter (mapPathToRegisteredAppImage w path st).2 = counter st.
Proof.
  unfold mapPathToRegisteredAppImage.
  destruct (Text.strsep_dot path) as [| c numeral]; [reflexivity |].
  destruct c as [[] [] [] [] [] [] [] []]; try reflexivity.
  destruct (Text.stoi numeral) as [id | |]; try reflexivity.
  destruct (negb _); [reflexivity |].
  unfold index, erase. unfold_M.
  destruct (registeredAppImages st !! id) as [e |]; cbn.
  - destruct (RegisteredAppImage_.checkExistsOnDisk w e) as [[|] | ex |]; reflexivity.
  - reflexivity.
Qed.

(** One call moves the counter by one step at most, and an id it hands
    out is the value the counter had. *)
Lemma serve_counter (r : request) (st : State) :
  0 <= counter st < Int.INT_MAX ->
  (counter st <= counter (serve r st).2 <= counter st + 1)
  /\ (forall id, (serve r st).1 = Some id ->
                 id = counter st /\ counter (serve r st).2 = counter st + 1).
Proof.
  intros Hc. destruct r as [w path | w path | w]; cbn [serve].
  - rewrite registerAppImage_eq.
    assert (Int.wrap_int (counter st + 1) = counter st + 1) as Hwrap
      by (apply wrap_int_small; unfold Int.INT_MIN, Int.INT_MAX in *; lia).
    destruct (bf_exists w path) as [[|] | ex |];
      try (cbn; split; [lia | discriminate]).
    destruct (List.find _ _) as [e |]; [cbn; split; [lia | discriminate] |].
    cbn zeta. rewrite Hwrap.
    destruct (open_rdonly w (bf_absolute w path) <? 0); cbn.
    + split; [lia | discriminate].
    + split; [lia |]. intros id [= <-]. split; reflexivity.
  - cbn. rewrite mapPath_counter. split; [lia | discriminate].
  - cbn. rewrite generateTextMap_counter. split; [lia | discriminate].
Qed.

Lemma run_cons (r : request) (rs : list request) (st : State) :
  run (r :: rs) st
  = (match (serve r st).1 with
     | Some id => id :: (run rs (serve r st).2).1
     | None => (run rs (serve r st).2).1
     end,
     (run rs (serve r st).2).2).
Proof.
  cbn [run]. destruct (serve r st) as [o st']. cbn.
  destruct (run rs st') as [ids st'']. reflexivity.
Qed.

Lemma run_app (rs1 rs2 : list request) : forall st : State,
  run (rs1 ++ rs2) st
  = ((run rs1 st).1 ++ (run rs2 (run rs1 st).2).1, (run rs2 (run rs1 st).2).2).
Proof.
  induction rs1 as [| r rs1 IH]; intros st.
  - cbn. destruct (run rs2 st); reflexivity.
  - rewrite <- app_comm_cons, !run_cons, IH. cbn.
    destruct ((serve r st).1); reflexivity.
Qed.

(** While the counter stays below [INT_MAX], the ids of a run start at the
    counter and go up. *)
Lemma run_ids_from_counter (rs : list request) : forall st : State,
  0 <= counter st ->
  counter st + Z.of_nat (length rs) <= Int.INT_MAX ->
  counter st <= counter (run rs st).2
  /\ Forall (fun id => counter st <= id) (run rs st).1
  /\ StronglySorted Z.lt (run rs st).1.
Proof.
  induction rs as [| r rs IH]; intros st Hlow Hhigh.
  - cbn. split; [lia |]. split; constructor.
  - rewrite run_cons. cbn [length] in Hhigh. cbn [fst snd].
    destruct (serve_counter r st ltac:(lia)) as [Hstep Hid].
    destruct (IH (serve r st).2 ltac:(lia) ltac:(lia)) as (Hend & Hall & Hsorted).
    split; [lia |].
    destruct ((serve r st).1) as [id |].
    + destruct (Hid id eq_refl) as [-> Hnext]. split; [| constructor; [exact Hsorted |]].
      * constructor; [lia |]. eapply Forall_impl; [exact Hall |]. cbn. intros; lia.
      * eapply Forall_impl; [exact Hall |]. cbn. intros; lia.
    + split; [| exact Hsorted].
      eapply Forall_impl; [exact Hall |]. cbn. intros; lia.
Qed.

Lemma StronglySorted_lt_NoDup (l : list Z) : StronglySorted Z.lt l -> NoDup l.
Proof.
  induction 1 as [| x l Hsorted IH Hall]; constructor; [| exact IH].
  intros Hin. rewrite Forall_forall in Hall. specialize (Hall x Hin). lia.
Qed.

(** C9, as the code has it.  Along any run of registrations, look-ups and
    listings from the start of the process that is no longer than
    [INT_MAX] calls (so that the 32-bit counter has not wrapped), the ids
    handed out by successful registrations go strictly up: no id is handed
    out twice, evicted or not. *)
Theorem assigned_ids_increasing_below_INT_MAX (rs : list request) :
  Z.of_nat (length rs) <= Int.INT_MAX ->
  StronglySorted Z.lt (run rs initial_state).1 /\ NoDup (run rs initial_state).1.
Proof.
  intros Hlen.
  destruct (run_ids_from_counter rs initial_state) as (_ & _ & Hsorted); cbn; try lia.
  split; [exact Hsorted | apply StronglySorted_lt_NoDup, Hsorted].
Qed.

Lemma assigned_ids_increasing_below_INT_MAX_witness :
  StronglySorted Z.lt
    (run [Register world_live "/a"; Lookup world_gone "/0000.AppImage";
          Register world_live "/a"; Listing world_live; Register world_live "/b"]
         initial_state).1
  /\ NoDup
       (run [Register world_live "/a"; Lookup world_gone "/0000.AppImage";
             Register world_live "/a"; Listing world_live; Register world_live "/b"]
            initial_state).1.
Proof.
  apply (assigned_ids_increasing_below_INT_MAX
           [Register world_live "/a"; Lookup world_gone "/0000.AppImage";
            Register world_live "/a"; Listing world_live; Register world_live "/b"]).
  unfold Int.INT_MAX. cbn. lia.
Defined.

Example run_evict_and_register_again :
  (run [Register world_live "/a"; Lookup world_gone "/0000.AppImage";
        Register world_live "/a"; Listing world_live; Register world_live "/b"]
       initial_state).1 = [0; 1; 2].
Proof. vm_compute. reflexivity. Qed.

(** A registration of the file that cannot be opened moves the counter
    and nothing else. *)
Lemma serve_locked (c : Z) :
  0 <= c < Int.INT_MAX ->
  serve (Register world_live "/locked") {| registeredAppImages := ∅; counter := c |}
  = (None, {| registeredAppImages := ∅; counter := c + 1 |}).
Proof.
  intros Hc. cbn [serve]. rewrite registerAppImage_eq.
  change (bf_exists world_live "/locked") with (Returns true).
  cbn [registeredAppImages counter]. rewrite iteration_empty.
  cbn [List.find].
  change (open_rdonly world_live (bf_absolute world_live "/locked")) with (-1).
  cbn zeta. change (-1 <? 0) with true. cbv iota.
  rewrite wrap_int_small; [reflexivity |].
  unfold Int.INT_MIN, Int.INT_MAX in *. lia.
Qed.

Lemma run_locked (n : nat) : forall c : Z,
  0 <= c ->
  c + Z.of_nat n <= Int.INT_MAX ->
  run (repeat (Register world_live "/locked") n)
      {| registeredAppImages := ∅; counter := c |}
  = ([], {| registeredAppImages := ∅; counter := c + Z.of_nat n |}).
Proof.
  induction n as [| n IH]; intros c Hlow Hhigh.
  - cbn [repeat run]. rewrite Nat2Z.inj_0, Z.add_0_r. reflexivity.
  - rewrite Nat2Z.inj_succ in Hhigh. cbn [repeat]. rewrite run_cons.
    rewrite serve_locked by lia. cbn [fst snd].
    rewrite IH by lia. cbn [fst snd]. rewrite Nat2Z.inj_succ.
    do 2 f_equal. lia.
Qed.

(** C9 as stated does not hold.  After [INT_MAX] registrations of a file
    that exists but cannot be opened, each of which moves the counter, the
    next two successful registrations get the ids [INT_MAX] and
    [INT_MIN]. *)
Lemma assigned_ids_wrap_around :
  (run overflow_run initial_state).1 = [2147483647; -2147483648]
  /\ ~ StronglySorted Z.lt (run overflow_run initial_state).1.
Proof.
  assert ((run overflow_run initial_state).1 = [2147483647; -2147483648]) as Hrun.
  { unfold overflow_run. rewrite run_app.
    assert (0 <= Int.INT_MAX) as Hpos by (unfold Int.INT_MAX; lia).
    pose proof (run_locked (Z.to_nat Int.INT_MAX) 0 (Z.le_refl 0)) as Hlocked.
    rewrite (Z2Nat.id _ Hpos) in Hlocked.
    specialize (Hlocked (Z.le_refl _)).
    change {| registeredAppImages := ∅; counter := 0 |} with initial_state in Hlocked.
    rewrite Hlocked. cbn [fst snd app].
    vm_compute. reflexivity. }
  split; [exact Hrun |].
  rewrite Hrun. intros Hsorted.
  apply StronglySorted_inv in Hsorted as [_ Hall].
  apply Forall_inv in Hall. lia.
Qed.

(** ** Closing the registration file *)

Lemma pop_line_endings_None (l : list ascii) :
  pop_line_endings l = None <-> forallb is_line_ending l = true.
Proof.
  induction l as [| c l IH]; cbn; [tauto |].
  destruct (is_line_ending c); cbn; [exact IH | split; discriminate].
Qed.

(** The loop of [release] reaches [back()] of an empty string exactly on
    the buffers that hold line endings only (the empty buffer is one). *)
Lemma strip_line_endings_None (buf : list ascii) :
  strip_line_endings buf = None <-> Forall (fun c => is_line_ending c = true) buf.
Proof.
  unfold strip_line_endings.
  destruct (pop_line_endings (reverse buf)) as [l |] eqn:Hpop; cbn.
  - split; [discriminate |]. intros Hall. exfalso.
    assert (pop_line_endings (reverse buf) = None) as Hnone; [| congruence].
    apply pop_line_endings_None, forallb_forall. intros c Hc.
    rewrite Forall_forall in Hall. apply Hall.
    apply list_elem_of_In in Hc. rewrite elem_of_reverse in Hc. exact Hc.
  - split; [intros _ | reflexivity].
    apply pop_line_endings_None in Hpop. rewrite forallb_forall in Hpop.
    apply Forall_forall. intros c Hc. apply Hpop.
    apply list_elem_of_In. rewrite elem_of_reverse. exact Hc.
Qed.

(** Once [bf::exists] has answered, whatever the registration does,
    [release] of a buffer that is left with a path returns 0, clears the
    handle and frees the buffer. *)
Lemma release_absorbs_registration_outcome (w : World) (st : State) (fi : fuse_file_info)
    (h : vectors) (buf requestedPath : list ascii) (b : bool) :
  fh fi <> 0 ->
  h !! fh fi = Some buf ->
  strip_line_endings buf = Some requestedPath ->
  bf_exists w (string_of_list_ascii requestedPath) = Returns b ->
  release w "/register" fi h st
  = (Returns (0, {| flags := flags fi; fh := 0 |}, delete (fh fi) h),
     (registerAppImage w (string_of_list_ascii requestedPath) st).2).
Proof.
  intros Hfh Hbuf Hstrip Hex. unfold release. cbn [String.eqb Ascii.eqb Bool.eqb andb].
  apply Z.eqb_neq in Hfh. rewrite Hfh. cbn [negb]. rewrite Hbuf, Hstrip.
  pose proof (registerAppImage_outcome w (string_of_list_ascii requestedPath) st b Hex)
    as Hout.
  unfold_M.
  destruct (registerAppImage w (string_of_list_ascii requestedPath) st) as [[id | e |] st'];
    cbn in *; [reflexivity | | contradiction].
  destruct (is_AppImageAlreadyRegisteredError e); [reflexivity |].
  rewrite Hout. reflexivity.
Qed.

(** The error of a status query that fails is none that [release]
    catches: it leaves [release], the handle is not cleared and the buffer
    is not freed. *)
Lemma release_lets_the_status_error_out (w : World) (st : State) (fi : fuse_file_info)
    (h : vectors) (buf requestedPath : list ascii) :
  fh fi <> 0 ->
  h !! fh fi = Some buf ->
  strip_line_endings buf = Some requestedPath ->
  bf_exists w (string_of_list_ascii requestedPath) = Throws boost_filesystem_error ->
  release w "/register" fi h st = (Throws boost_filesystem_error, st).
Proof.
  intros Hfh Hbuf Hstrip Hex. unfold release. cbn [String.eqb Ascii.eqb Bool.eqb andb].
  apply Z.eqb_neq in Hfh. rewrite Hfh. cbn [negb]. rewrite Hbuf, Hstrip.
  unfold_M. rewrite (registerAppImage_status_error w _ st Hex). reflexivity.
Qed.

Example release_registers_the_written_path :
  release world_live "/register" {| flags := O_WRONLY; fh := 1 |}
          {[ 1 := ["/"; "b"; "010"]%char ]} state_a
  = (Returns (0, {| flags := O_WRONLY; fh := 0 |}, ∅),
     {| registeredAppImages :=
          {[ 0 := {| _id := 0; _path := "/a"; _fd := 3 |};
             1 := {| _id := 1; _path := "/b"; _fd := 3 |} ]};
        counter := 2 |}).
Proof. vm_compute. reflexivity. Qed.

(** C8, where the code leaves it.  A handle of the registration file that
    is opened and closed with nothing written in between has an empty
    buffer; [release] then evaluates [requestedPath.back()] on an empty
    string, which has no defined result, instead of returning 0. *)
Theorem release_of_unwritten_handle_is_undefined (w : World) (st : State)
    (fi : fuse_file_info) :
  exists (fi' : fuse_file_info) (h' : vectors),
    open w "/register" fi ∅ st = (Returns (0, fi', h'), st)
    /\ fh fi' <> 0
    /\ h' !! fh fi' = Some []
    /\ release w "/register" fi' h' st = (Undefined, st).
Proof.
  exists {| flags := flags fi; fh := 1 |}, {[ 1 := [] ]}.
  split; [reflexivity |]. split; [discriminate |]. split; reflexivity.
Qed.

(** ** Reads *)

Lemma memcpy_at (m : memory) (dst : Z) (src : list ascii) (from n a : Z) :
  dst <= a < dst + n -> memcpy m dst src from n a = char_at src (from + (a - dst)).
Proof.
  intros Ha. unfold memcpy.
  destruct (Z.leb_spec dst a), (Z.ltb_spec a (dst + n)); try lia. reflexivity.
Qed.

Lemma memcpy_other (m : memory) (dst : Z) (src : list ascii) (from n a : Z) :
  a < dst \/ dst + n <= a -> memcpy m dst src from n a = m a.
Proof.
  intros Ha. unfold memcpy.
  destruct (Z.leb_spec dst a), (Z.ltb_spec a (dst + n)); try lia; reflexivity.
Qed.

Lemma memset_at (m : memory) (dst : Z) (c : ascii) (n a : Z) :
  dst <= a < dst + n -> memset m dst c n a = c.
Proof.
  intros Ha. unfold memset.
  destruct (Z.leb_spec dst a), (Z.ltb_spec a (dst + n)); try lia. reflexivity.
Qed.

Lemma memset_other (m : memory) (dst : Z) (c : ascii) (n a : Z) :
  a < dst \/ dst + n <= a -> memset m dst c n a = m a.
Proof.
  intros Ha. unfold memset.
  destruct (Z.leb_spec dst a), (Z.ltb_spec a (dst + n)); try lia; reflexivity.
Qed.

Lemma to_size_t_small (z : Z) :
  0 <= z < 18446744073709551616 -> Int.to_size_t z = z.
Proof. intros Hz. unfold Int.to_size_t. apply Z.mod_small, Hz. Qed.

(** [handleReadRegisteredAppImage] on an open descriptor, a buffer size
    that FUSE can ask for and an offset into the blanked range or before
    it: the count it returns and the memory it leaves. *)
Lemma handleReadRegisteredAppImage_eq (w : World) (m : memory) (buf bufsize offset : Z)
    (fi : fuse_file_info) (file : list ascii) :
  fd_contents w (Int.wrap_int (fh fi)) = Some file ->
  0 <= offset <= magicBytesEnd ->
  0 <= bufsize <= Int.INT32_MAX ->
  let n := Z.max 0 (Z.min bufsize (Z.of_nat (length file) - offset)) in
  handleReadRegisteredAppImage w m buf bufsize offset fi
  = (n, memset (memcpy m buf file offset n) (buf + (magicBytesBegin - offset)) Text.NUL
               (Z.min (Z.min (magicBytesEnd - offset) 2) bufsize + 1)).
Proof.
  intros Hfile Hoff Hsize n. unfold handleReadRegisteredAppImage, pread.
  unfold magicBytesEnd, Int.INT32_MAX in *. rewrite Hfile.
  destruct (Z.ltb_spec offset 0); [lia |]. fold n.
  destruct (Z.ltb_spec n 0); [lia |].
  destruct (n >? 2147483647) eqn:Hbig; [apply Z.gtb_lt in Hbig; lia |].
  destruct (Z.leb_spec offset 10); [| lia].
  rewrite (to_size_t_small (10 - offset)) by lia.
  rewrite to_size_t_small by lia. reflexivity.
Qed.

(** Up to offset 8 the bytes handed back are as they should be: zero at
    the file positions 8 to 10, the bytes of the file elsewhere. *)
Lemma handleReadRegisteredAppImage_up_to_offset_8 (w : World) (m : memory)
    (buf bufsize offset : Z) (fi : fuse_file_info) (file : list ascii) (i : Z) :
  fd_contents w (Int.wrap_int (fh fi)) = Some file ->
  0 <= offset <= magicBytesBegin ->
  0 <= bufsize <= Int.INT32_MAX ->
  0 <= i < (handleReadRegisteredAppImage w m buf bufsize offset fi).1 ->
  (handleReadRegisteredAppImage w m buf bufsize offset fi).2 (buf + i)
  = if (magicBytesBegin <=? offset + i) && (offset + i <=? magicBytesEnd) then Text.NUL
    else char_at file (offset + i).
Proof.
  intros Hfile Hoff Hsize.
  rewrite (handleReadRegisteredAppImage_eq w m buf bufsize offset fi file Hfile);
    [| unfold magicBytesBegin, magicBytesEnd in *; lia | exact Hsize].
  unfold magicBytesBegin, magicBytesEnd in *. cbn [fst snd]. intros Hi.
  destruct (Z.leb_spec 8 (offset + i)), (Z.leb_spec (offset + i) 10); cbn [andb].
  - apply memset_at. lia.
  - rewrite memset_other by lia. rewrite memcpy_at by lia. f_equal. lia.
  - rewrite memset_other by lia. rewrite memcpy_at by lia. f_equal. lia.
  - lia.
Qed.

(** Beyond the range the bytes of the file pass through. *)
Lemma handleReadRegisteredAppImage_beyond_magic (w : World) (m : memory)
    (buf bufsize offset : Z) (fi : fuse_file_info) (file : list ascii) (i : Z) :
  fd_contents w (Int.wrap_int (fh fi)) = Some file ->
  magicBytesEnd < offset ->
  0 <= bufsize <= Int.INT32_MAX ->
  0 <= i < (handleReadRegisteredAppImage w m buf bufsize offset fi).1 ->
  (handleReadRegisteredAppImage w m buf bufsize offset fi).2 (buf + i)
  = char_at file (offset + i).
Proof.
  intros Hfile Hoff Hsize. unfold handleReadRegisteredAppImage, pread.
  unfold magicBytesEnd, Int.INT32_MAX in *. rewrite Hfile.
  destruct (Z.ltb_spec offset 0); [lia |].
  set (n := Z.max 0 (Z.min bufsize (Z.of_nat (length file) - offset))).
  destruct (Z.ltb_spec n 0); [lia |].
  destruct (n >? 2147483647) eqn:Hbig; [apply Z.gtb_lt in Hbig; lia |].
  destruct (Z.leb_spec offset 10); [lia |]. cbn [fst snd]. intros Hi.
  rewrite memcpy_at by lia. f_equal. lia.
Qed.

(** C1, where the code misses it.  A read of two bytes at offset 9 of a
    registered AppImage covers the file positions 9 and 10, both in the
    blanked range.  The handler zeroes the byte in front of the buffer and
    the first byte of the buffer: position 10 comes back with the byte of
    the file, [0x02], the last byte of the marker. *)
Theorem handleReadRegisteredAppImage_offset_9_leaks_magic_byte (m : memory) (buf : Z) :
  char_at appimage_bytes 10 = "002"%char
  /\ reply buf (handleReadRegisteredAppImage world_live m buf 2 9 {| flags := 0; fh := 3 |})
     = (2, ["000"; "002"]%char)
  /\ (handleReadRegisteredAppImage world_live m buf 2 9 {| flags := 0; fh := 3 |}).2 (buf - 1)
     = "000"%char.
Proof.
  split; [reflexivity |].
  rewrite (handleReadRegisteredAppImage_eq world_live m buf 2 9 _ appimage_bytes);
    [| reflexivity | unfold magicBytesEnd; lia | unfold Int.INT32_MAX; lia].
  unfold magicBytesBegin, magicBytesEnd.
  change (Z.max 0 (Z.min 2 (Z.of_nat (length appimage_bytes) - 9))) with 2.
  change (Z.min (Z.min (10 - 9) 2) 2 + 1) with 2.
  change (buf + (8 - 9)) with (buf + -1).
  unfold reply. cbn [fst snd].
  change (bytes_at ?m' buf 2) with [m' (buf + 0); m' (buf + 1)].
  rewrite (memset_at _ _ _ _ (buf + 0)) by lia.
  rewrite (memset_other _ _ _ _ (buf + 1)) by lia.
  rewrite (memcpy_at _ _ _ _ _ (buf + 1)) by lia.
  replace (9 + (buf + 1 - buf)) with 10 by lia.
  rewrite (memset_at _ _ _ _ (buf - 1)) by lia.
  split; reflexivity.
Qed.

Lemma generateTextMap_state_a :
  generateTextMap world_live state_a
  = (Returns ("0000.AppImage -> /a" +:+ endl), state_a).
Proof. vm_compute. reflexivity. Qed.

(** C3, where the code misses it.  The listing of one entry is 20 bytes
    long.  A read of 4 bytes at offset 2 gets 2 bytes, not 4; a read of 4
    bytes at offset 8 fails with [-EIO], though 12 bytes are left. *)
Theorem handleReadMap_window_is_short_or_fails (m : memory) (buf : Z) :
  String.length ("0000.AppImage -> /a" +:+ endl) = 20%nat
  /\ (exists m',
        handleReadMap world_live m buf 4 2 state_a = (Returns (2, m'), state_a)
        /\ reply buf (2, m') = (2, ["0"; "0"]%char))
  /\ handleReadMap world_live m buf 4 8 state_a = (Returns (- EIO, m), state_a).
Proof.
  split; [reflexivity |]. split.
  - exists (memcpy m buf (list_ascii_of_string ("0000.AppImage -> /a" +:+ endl)) 2 2).
    split.
    + unfold handleReadMap. rewrite (bind_returns _ _ _ _ _ generateTextMap_state_a).
      reflexivity.
    + unfold reply. cbn [fst snd].
      change (bytes_at ?m' buf 2) with [m' (buf + 0); m' (buf + 1)].
      rewrite (memcpy_at _ _ _ _ _ (buf + 0)) by lia.
      rewrite (memcpy_at _ _ _ _ _ (buf + 1)) by lia.
      replace (2 + (buf + 0 - buf)) with 2 by lia.
      replace (2 + (buf + 1 - buf)) with 3 by lia.
      reflexivity.
  - unfold handleReadMap. rewrite (bind_returns _ _ _ _ _ generateTextMap_state_a).
    reflexivity.
Qed.

(** C4, where the code misses it.  A read of the registration file with
    an 8-byte buffer at offset 2 should get the bytes 2 to 7 of the
    message.  The handler copies the first 6 bytes of the message to the
    buffer from its byte 2 on and returns 6: the reader gets the two bytes
    that were in the buffer and then the first 4 bytes of the message. *)
Theorem handleWriteRegister_offset_shifts_the_message (m : memory) (buf : Z) :
  take 6 (drop 2 (list_ascii_of_string REGISTER_MSG)) = ["i"; "t"; "e"; " "; "p"; "a"]%char
  /\ reply buf (handleWriteRegister m buf 8 2)
     = (6, [m (buf + 0); m (buf + 1); "W"; "r"; "i"; "t"]%char).
Proof.
  split; [reflexivity |].
  unfold handleWriteRegister.
  change (Int.to_size_t (Z.min 8 (Z.of_nat (String.length REGISTER_MSG)) - 2)) with 6.
  change (6 >? Int.INT32_MAX) with false. unfold reply. cbn [fst snd].
  change (bytes_at ?m' buf 6)
    with [m' (buf + 0); m' (buf + 1); m' (buf + 2); m' (buf + 3); m' (buf + 4); m' (buf + 5)].
  rewrite (memcpy_other _ _ _ _ _ (buf + 0)) by lia.
  rewrite (memcpy_other _ _ _ _ _ (buf + 1)) by lia.
  rewrite (memcpy_at _ _ _ _ _ (buf + 2)) by lia.
  rewrite (memcpy_at _ _ _ _ _ (buf + 3)) by lia.
  rewrite (memcpy_at _ _ _ _ _ (buf + 4)) by lia.
  rewrite (memcpy_at _ _ _ _ _ (buf + 5)) by lia.
  replace (buf + 2 - (buf + 2)) with 0 by lia.
  replace (buf + 3 - (buf + 2)) with 1 by lia.
  replace (buf + 4 - (buf + 2)) with 2 by lia.
  replace (buf + 5 - (buf + 2)) with 3 by lia.
  reflexivity.
Qed.

(** At offset 0 the read of the registration file serves the start of the
    message. *)
Example handleWriteRegister_at_offset_0 (m : memory) :
  (handleWriteRegister m 4096 4 0).1 = 4
  /\ bytes_at (handleWriteRegister m 4096 4 0).2 4096 4 = ["W"; "r"; "i"; "t"]%char.
Proof. split; reflexivity. Qed.

(** ** The dispatch of [read], and a session on the registration file *)

Lemma read_map (w : World) (m : memory) (buf bufsize offset : Z) (fi : fuse_file_info) :
  read w "/map" m buf bufsize offset fi = handleReadMap w m buf bufsize offset.
Proof. reflexivity. Qed.

(** The read of the registration file looks at no handle and at no
    buffer. *)
Lemma read_register (w : World) (m : memory) (buf bufsize offset : Z) (fi : fuse_file_info)
    (st : State) :
  read w "/register" m buf bufsize offset fi st
  = (Returns (handleWriteRegister m buf bufsize offset), st).
Proof. reflexivity. Qed.

Lemma canonical_name_is_no_control_file (id : Z) :
  0 <= id <= Int.INT_MAX ->
  String.eqb ("/" +:+ generateFilenameForId id) "/map" = false
  /\ String.eqb ("/" +:+ generateFilenameForId id) "/register" = false.
Proof.
  intros Hid. destruct (canonical_numeral id Hid) as (Hall & Hne & _).
  unfold generateFilenameForId.
  destruct (Text.setw_setfill 4 "0"%char (Text.int_to_decimal id)) as [| c r];
    [congruence |].
  cbn in Hall. apply andb_true_iff in Hall as [Hc _]. unfold Text.is_digit in Hc.
  destruct c as [[] [] [] [] [] [] [] []]; try discriminate Hc; split; reflexivity.
Qed.

(** The read of a registered file whose file is on disk goes to
    [handleReadRegisteredAppImage]. *)
Lemma read_registered (w : World) (m : memory) (buf bufsize offset : Z) (fi : fuse_file_info)
    (st : State) (id : Z) (e : RegisteredAppImage) :
  0 <= id <= Int.INT_MAX ->
  registeredAppImages st !! id = Some e ->
  RegisteredAppImage_.checkExistsOnDisk w e = Returns true ->
  read w ("/" +:+ generateFilenameForId id) m buf bufsize offset fi st
  = (Returns (handleReadRegisteredAppImage w m buf bufsize offset fi), st).
Proof.
  intros Hid He Hdisk. unfold read.
  destruct (canonical_name_is_no_control_file id Hid) as [-> ->].
  unfold try_catch, mbind, M_bind.
  rewrite (mapPath_registered w st id e Hid He Hdisk). reflexivity.
Qed.

Example read_registered_at_offset_9 (m : memory) (buf : Z) :
  read world_live "/0000.AppImage" m buf 2 9 {| flags := 0; fh := 3 |} state_a
  = (Returns (handleReadRegisteredAppImage world_live m buf 2 9 {| flags := 0; fh := 3 |}),
     state_a).
Proof.
  apply (read_registered world_live m buf 2 9 _ state_a 0
           {| _id := 0; _path := "/a"; _fd := 3 |}).
  - unfold Int.INT_MAX. lia.
  - vm_compute. reflexivity.
  - reflexivity.
Qed.

(** Open the registration file, write a path and a new line, close: one
    entry is added. *)
Example open_write_release_registers :
  exists (fi : fuse_file_info) (h h' : vectors),
    open world_live "/register" {| flags := O_WRONLY; fh := 0 |} ∅ state_a
    = (Returns (0, fi, h), state_a)
    /\ write "/register" ["/"; "b"; "010"]%char fi h = Some (3, h')
    /\ release world_live "/register" fi h' state_a
       = (Returns (0, {| flags := O_WRONLY; fh := 0 |}, ∅),
          {| registeredAppImages :=
               {[ 0 := {| _id := 0; _path := "/a"; _fd := 3 |};
                  1 := {| _id := 1; _path := "/b"; _fd := 3 |} ]};
             counter := 2 |}).
Proof.
  exists {| flags := O_WRONLY; fh := 1 |}, {[ 1 := [] ]}, {[ 1 := ["/"; "b"; "010"]%char ]}.
  split; [reflexivity |]. split; vm_compute; reflexivity.
Qed.

(** * Further properties *)

(** ** Names and numerals *)

Lemma append_cons (c : ascii) (s t : string) : String c s +:+ t = String c (s +:+ t).
Proof. reflexivity. Qed.

Lemma length_append (s t : string) :
  String.length (s +:+ t) = (String.length s + String.length t)%nat.
Proof. induction s as [| c s IH]; [reflexivity |]. rewrite append_cons. cbn. lia. Qed.

Lemma append_assoc (s t u : string) : (s +:+ t) +:+ u = s +:+ (t +:+ u).
Proof. induction s as [| c s IH]; [reflexivity |]. rewrite !append_cons. f_equal. exact IH. Qed.

Lemma append_nil_r (s : string) : s +:+ "" = s.
Proof. induction s as [| c s IH]; [reflexivity |]. rewrite append_cons. f_equal. exact IH. Qed.

Lemma append_inj_l (s a b : string) : s +:+ a = s +:+ b -> a = b.
Proof.
  induction s as [| c s IH]; [trivial |]. rewrite !append_cons. intros [= H]. apply IH, H.
Qed.

Lemma parse_digits_stops (s : string) : forall (acc : Z) (c : ascii) (r : string),
  Text.all_digits s = true -> Text.is_digit c = false ->
  Text.parse_digits acc (s +:+ String c r) = Text.parse_digits acc s.
Proof.
  induction s as [| d s IH]; intros acc c r Hs Hc.
  - change ("" +:+ String c r) with (String c r). cbn [Text.parse_digits].
    rewrite Hc. reflexivity.
  - cbn in Hs. apply andb_true_iff in Hs as [Hd Hs].
    rewrite append_cons. cbn [Text.parse_digits]. rewrite Hd. apply IH; assumption.
Qed.

(** [std::stoi] on a text of digits: its value, or [std::out_of_range]
    when the value does not fit an [int]. *)
Lemma stoi_digits (s : string) :
  Text.all_digits s = true -> s <> "" ->
  Text.stoi s = if Int.in_int (Text.parse_digits 0 s)
                then Text.stoi_value (Text.parse_digits 0 s)
                else Text.stoi_out_of_range.
Proof.
  intros Hs Hne. destruct s as [| c s]; [congruence |].
  cbn in Hs. apply andb_true_iff in Hs as [Hc Hs].
  unfold Text.is_digit in Hc. unfold Text.stoi.
  assert (Text.skip_space (String c s) = String c s) as ->.
  { cbn [Text.skip_space].
    destruct c as [[] [] [] [] [] [] [] []]; try discriminate Hc; reflexivity. }
  assert ((match String c s with
           | String "-"%char r => (true, r)
           | String "+"%char r => (false, r)
           | _ => (false, String c s)
           end) = (false, String c s)) as ->.
  { destruct c as [[] [] [] [] [] [] [] []]; try discriminate Hc; reflexivity. }
  cbn [Text.starts_with_digit]. unfold Text.is_digit.
  destruct (Ascii.is_nat c); [reflexivity | discriminate].
Qed.

Lemma canonical_name_inj (a b : Z) :
  0 <= a <= Int.INT_MAX -> 0 <= b <= Int.INT_MAX ->
  generateFilenameForId a = generateFilenameForId b -> a = b.
Proof.
  intros Ha Hb Heq.
  pose proof (strsep_dot_canonical a Ha) as Hsa.
  pose proof (strsep_dot_canonical b Hb) as Hsb.
  rewrite Heq, Hsb in Hsa. injection Hsa as Hnum.
  destruct (canonical_numeral a Ha) as (_ & _ & Hva).
  destruct (canonical_numeral b Hb) as (_ & _ & Hvb).
  cbv zeta in Hva, Hvb. rewrite <- Hva, <- Hvb, Hnum. reflexivity.
Qed.

(** X1.  Reading a canonical name back: for every id from 0 to [INT_MAX],
    the first part of [/<name of id>] as [strsep] cuts it is the slash and
    a numeral, and [std::stoi] of the numeral is the id. *)
Theorem canonical_name_round_trip (id : Z) :
  0 <= id <= Int.INT_MAX ->
  exists numeral,
    Text.strsep_dot ("/" +:+ generateFilenameForId id) = String "/"%char numeral
    /\ Text.stoi numeral = Text.stoi_value id.
Proof.
  intros Hid. eexists. split; [apply strsep_dot_canonical, Hid |].
  apply stoi_canonical_numeral, Hid.
Qed.

Lemma canonical_name_round_trip_witness :
  exists numeral,
    Text.strsep_dot ("/" +:+ generateFilenameForId 12345) = String "/"%char numeral
    /\ Text.stoi numeral = Text.stoi_value 12345.
Proof. apply (canonical_name_round_trip 12345). unfold Int.INT_MAX. lia. Defined.

(** X2.  Two different ids from 0 to [INT_MAX] get different file
    names. *)
Theorem generateFilenameForId_injective (a b : Z) :
  0 <= a <= Int.INT_MAX -> 0 <= b <= Int.INT_MAX ->
  a <> b -> generateFilenameForId a <> generateFilenameForId b.
Proof. intros Ha Hb Hne Heq. apply Hne, (canonical_name_inj a b Ha Hb Heq). Qed.

Lemma generateFilenameForId_injective_witness :
  generateFilenameForId 7 <> generateFilenameForId 10007.
Proof.
  apply (generateFilenameForId_injective 7 10007); unfold Int.INT_MAX; lia.
Defined.

Lemma dec_digits_length_le (fuel : nat) : forall (n : Z) (acc : string) (k : nat),
  (1 <= k)%nat -> 0 <= n < 10 ^ Z.of_nat k ->
  (String.length (Text.dec_digits fuel n acc) <= k + String.length acc)%nat.
Proof.
  induction fuel as [| f IH]; intros n acc k Hk Hn; cbn [Text.dec_digits]; [lia |].
  destruct (n / 10 =? 0) eqn:Hq; [cbn; lia |].
  apply Z.eqb_neq in Hq.
  assert (10 <= n) as Hten.
  { destruct (Z_lt_le_dec n 10) as [Hlt |]; [| assumption].
    rewrite Z.div_small in Hq by lia. congruence. }
  destruct k as [| [| k]]; [lia | cbn in Hn; lia |].
  specialize (IH (n / 10) (String (Text.digit_char (n mod 10)) acc) (S k)).
  cbn [String.length] in IH.
  assert (0 <= n / 10 < 10 ^ Z.of_nat (S k)) as Hdiv.
  { rewrite (Nat2Z.inj_succ (S k)), Z.pow_succ_r in Hn by lia.
    split; [apply Z.div_pos; lia | apply Z.div_lt_upper_bound; lia]. }
  specialize (IH ltac:(lia) Hdiv). lia.
Qed.

Lemma dec_digits_length_acc (fuel : nat) : forall (n : Z) (acc : string),
  (String.length acc <= String.length (Text.dec_digits fuel n acc))%nat.
Proof.
  induction fuel as [| f IH]; intros n acc; cbn [Text.dec_digits]; [lia |].
  destruct (n / 10 =? 0); [cbn; lia |].
  specialize (IH (n / 10) (String (Text.digit_char (n mod 10)) acc)). cbn in IH. lia.
Qed.

Lemma dec_digits_length_ge (fuel : nat) : forall (n : Z) (acc : string) (k : nat),
  (k < fuel)%nat -> 10 ^ Z.of_nat k <= n ->
  (k + 1 + String.length acc <= String.length (Text.dec_digits fuel n acc))%nat.
Proof.
  induction fuel as [| f IH]; intros n acc k Hk Hn; [lia |].
  cbn [Text.dec_digits].
  destruct k as [| k].
  - destruct (n / 10 =? 0); [cbn; lia |].
    pose proof (dec_digits_length_acc f (n / 10) (String (Text.digit_char (n mod 10)) acc)) as H.
    cbn in H. lia.
  - rewrite Nat2Z.inj_succ, Z.pow_succ_r in Hn by lia.
    assert (0 < 10 ^ Z.of_nat k) as Hpow by (apply Z.pow_pos_nonneg; lia).
    assert (10 ^ Z.of_nat k <= n / 10) as Hdiv by (apply Z.div_le_lower_bound; lia).
    destruct (n / 10 =? 0) eqn:Hq; [apply Z.eqb_eq in Hq; lia |].
    specialize (IH (n / 10) (String (Text.digit_char (n mod 10)) acc) k ltac:(lia) Hdiv).
    cbn in IH. lia.
Qed.

(** X3.  The width of a name: an id from 0 to 9999 gets a name of exactly
    13 characters (four digits and the suffix); [std::setw] is a minimum,
    so an id from 10000 to [INT_MAX] gets a longer one. *)
Theorem generateFilenameForId_width (id : Z) :
  0 <= id <= Int.INT_MAX ->
  (id <= 9999 -> String.length (generateFilenameForId id) = 13%nat)
  /\ (10000 <= id -> (13 < String.length (generateFilenameForId id))%nat).
Proof.
  intros Hid. unfold generateFilenameForId, Text.setw_setfill, Text.int_to_decimal.
  destruct (id <? 0) eqn:Hneg; [apply Z.ltb_lt in Hneg; lia |].
  assert (forall k c s, String.length (Text.fill k c s) = (k + String.length s)%nat) as Hfill.
  { intros k c s. induction k as [| k IH]; cbn; [reflexivity | lia]. }
  rewrite length_append, Hfill. cbn [String.length].
  pose proof (dec_digits_not_empty 9 id "") as Hne.
  assert (1 <= String.length (Text.dec_digits 10 id ""))%nat as Hone.
  { destruct (Text.dec_digits 10 id ""); [congruence | cbn; lia]. }
  split; intros Hrange.
  - pose proof (dec_digits_length_le 10 id "" 4 ltac:(lia)) as Hle.
    cbn [String.length] in Hle. specialize (Hle ltac:(change (10 ^ Z.of_nat 4) with 10000; lia)).
    lia.
  - pose proof (dec_digits_length_ge 10 id "" 4 ltac:(lia)) as Hge.
    cbn [String.length] in Hge. specialize (Hge ltac:(change (10 ^ Z.of_nat 4) with 10000; lia)).
    lia.
Qed.

Lemma generateFilenameForId_width_witness :
  String.length (generateFilenameForId 42) = 13%nat
  /\ (13 < String.length (generateFilenameForId 123456))%nat.
Proof.
  split.
  - apply (generateFilenameForId_width 42); [unfold Int.INT_MAX |]; lia.
  - apply (generateFilenameForId_width 123456); [unfold Int.INT_MAX |]; lia.
Defined.

Lemma generateMountpointPath_inj (uid1 uid2 : Z) :
  0 <= uid1 < 4294967296 -> 0 <= uid2 < 4294967296 ->
  generateMountpointPath uid1 = generateMountpointPath uid2 -> uid1 = uid2.
Proof.
  intros H1 H2 Heq. unfold generateMountpointPath in Heq.
  apply append_inj_l in Heq.
  apply (f_equal (Text.parse_digits 0)) in Heq.
  change "/appimagelauncherfs/" with (String "/"%char "appimagelauncherfs/") in Heq.
  rewrite !parse_digits_stops in Heq
    by first [reflexivity | apply all_digits_dec_digits; [lia | reflexivity]].
  rewrite !parse_dec_digits in Heq by (change (10 ^ Z.of_nat 10) with 10000000000; lia).
  exact Heq.
Qed.

(** X4.  Two users with different ids (unsigned, 32 bits) get different
    mount points. *)
Theorem generateMountpointPath_injective (uid1 uid2 : Z) :
  0 <= uid1 < 4294967296 -> 0 <= uid2 < 4294967296 ->
  uid1 <> uid2 -> generateMountpointPath uid1 <> generateMountpointPath uid2.
Proof. intros H1 H2 Hne Heq. apply Hne, (generateMountpointPath_inj uid1 uid2 H1 H2 Heq). Qed.

Lemma generateMountpointPath_injective_witness :
  generateMountpointPath 1000 <> generateMountpointPath 1001.
Proof. apply (generateMountpointPath_injective 1000 1001); lia. Defined.

Example generateMountpointPath_1000 :
  generateMountpointPath 1000 = "/run/user/1000/appimagelauncherfs/".
Proof. reflexivity. Qed.

(** ** More on path resolution *)

Lemma strsep_dot_head (c : ascii) (r : string) :
  c <> "/"%char -> forall numeral, Text.strsep_dot (String c r) <> String "/"%char numeral.
Proof.
  intros Hc numeral. cbn [Text.strsep_dot].
  destruct (Ascii.eqb c "."%char); [discriminate |]. congruence.
Qed.

Lemma mapPath_no_slash (w : World) (st : State) (path : string) :
  (forall numeral, Text.strsep_dot path <> String "/"%char numeral) ->
  mapPathToRegisteredAppImage w path st = (Throws InvalidPathError, st).
Proof.
  intros Hno. unfold mapPathToRegisteredAppImage.
  destruct (Text.strsep_dot path) as [| c numeral]; [reflexivity |].
  destruct (Ascii.eqb_spec c "/"%char) as [-> | Hc]; [exfalso; apply (Hno numeral); reflexivity |].
  destruct c as [[] [] [] [] [] [] [] []]; try reflexivity. congruence.
Qed.

(** X5.  A path that does not begin with the slash (the empty path too)
    makes the resolver throw [InvalidPathError], whatever follows, and the
    statics are left alone. *)
Theorem mapPath_rejects_missing_leading_slash (w : World) (st : State) (path : string) :
  (forall rest, path <> String "/"%char rest) ->
  mapPathToRegisteredAppImage w path st = (Throws InvalidPathError, st).
Proof.
  intros Hpath. apply mapPath_no_slash. destruct path as [| c r]; [discriminate |].
  apply strsep_dot_head. intros ->. apply (Hpath r). reflexivity.
Qed.

Lemma mapPath_rejects_missing_leading_slash_witness :
  mapPathToRegisteredAppImage world_live "0000.AppImage" state_a
  = (Throws InvalidPathError, state_a).
Proof.
  apply (mapPath_rejects_missing_leading_slash world_live state_a "0000.AppImage").
  discriminate.
Defined.

(** What the resolver does to the statics: nothing, or it erases the id it
    parsed. *)
Lemma mapPath_state (w : World) (path : string) (st : State) :
  (mapPathToRegisteredAppImage w path st).2 = st
  \/ exists id, (mapPathToRegisteredAppImage w path st).2
                = {| registeredAppImages := delete id (registeredAppImages st);
                     counter := counter st |}.
Proof.
  unfold mapPathToRegisteredAppImage.
  destruct (Text.strsep_dot path) as [| c numeral]; [left; reflexivity |].
  destruct c as [[] [] [] [] [] [] [] []]; try (left; reflexivity).
  destruct (Text.stoi numeral) as [id | |]; try (left; reflexivity).
  destruct (negb _); [left; reflexivity |].
  unfold index, erase. unfold_M.
  destruct (registeredAppImages st !! id) as [e |] eqn:He; cbn.
  - destruct (RegisteredAppImage_.checkExistsOnDisk w e) as [[|] | ex |];
      [left; reflexivity | right; exists id; reflexivity | left; reflexivity ..].
  - left. rewrite (delete_insert_id _ _ _ He). apply State_eta.
Qed.

(** X6.  A look-up never adds to the registry and never moves the counter:
    whatever the path and the disk, the entries after the call are entries
    that were there before. *)
Theorem mapPath_only_removes (w : World) (path : string) (st : State) :
  counter (mapPathToRegisteredAppImage w path st).2 = counter st
  /\ registeredAppImages (mapPathToRegisteredAppImage w path st).2 ⊆ registeredAppImages st.
Proof.
  destruct (mapPath_state w path st) as [-> | [id ->]]; cbn; split; try reflexivity.
  apply delete_subseteq.
Qed.

(** X7.  Eviction is for good.  When the file of a registered id is not a
    regular file on disk any more, the look-up of its name throws
    [CouldNotFindRegisteredAppImageError] and erases the entry; from then
    on the name is not found, also when the file is back on disk. *)
Theorem mapPath_evicts_for_good (w w' : World) (st : State) (id : Z) (e : RegisteredAppImage) :
  0 <= id <= Int.INT_MAX ->
  registeredAppImages st !! id = Some e ->
  RegisteredAppImage_.checkExistsOnDisk w e = Returns false ->
  let evicted := {| registeredAppImages := delete id (registeredAppImages st);
                    counter := counter st |} in
  mapPathToRegisteredAppImage w ("/" +:+ generateFilenameForId id) st
  = (Throws CouldNotFindRegisteredAppImageError, evicted)
  /\ mapPathToRegisteredAppImage w' ("/" +:+ generateFilenameForId id) evicted
     = (Throws CouldNotFindRegisteredAppImageError, evicted).
Proof.
  intros Hid He Hdisk evicted. split.
  - rewrite (mapPath_canonical w id st Hid). unfold index, erase. unfold_M.
    rewrite He. cbn. rewrite Hdisk. reflexivity.
  - rewrite (mapPath_canonical w' id evicted Hid). unfold index, erase. unfold_M.
    cbn [registeredAppImages evicted]. rewrite lookup_delete_eq. cbn.
    rewrite delete_insert_eq, delete_delete_eq. reflexivity.
Qed.

Lemma mapPath_evicts_for_good_witness :
  mapPathToRegisteredAppImage world_gone "/0000.AppImage" state_a
  = (Throws CouldNotFindRegisteredAppImageError,
     {| registeredAppImages := delete 0 (registeredAppImages state_a); counter := 1 |})
  /\ mapPathToRegisteredAppImage world_live "/0000.AppImage"
       {| registeredAppImages := delete 0 (registeredAppImages state_a); counter := 1 |}
     = (Throws CouldNotFindRegisteredAppImageError,
        {| registeredAppImages := delete 0 (registeredAppImages state_a); counter := 1 |}).
Proof.
  apply (mapPath_evicts_for_good world_gone world_live state_a 0
           {| _id := 0; _path := "/a"; _fd := 3 |}).
  - unfold Int.INT_MAX. lia.
  - vm_compute. reflexivity.
  - reflexivity.
Defined.

Lemma digits_name_is_no_control_file (digits rest : string) :
  Text.all_digits digits = true -> digits <> "" ->
  String.eqb ("/" +:+ digits +:+ rest) "/map" = false
  /\ String.eqb ("/" +:+ digits +:+ rest) "/register" = false
  /\ String.eqb ("/" +:+ digits +:+ rest) "/" = false.
Proof.
  intros Hall Hne. destruct digits as [| c r]; [congruence |].
  cbn in Hall. apply andb_true_iff in Hall as [Hc _]. unfold Text.is_digit in Hc.
  destruct c as [[] [] [] [] [] [] [] []]; try discriminate Hc; repeat split; reflexivity.
Qed.

Lemma mapPath_oversized (w : World) (st : State) (digits rest : string) :
  Text.all_digits digits = true ->
  Int.INT_MAX < Text.parse_digits 0 digits ->
  mapPathToRegisteredAppImage w ("/" +:+ digits +:+ String "."%char rest) st
  = (Throws std_out_of_range, st).
Proof.
  intros Hall Hbig.
  assert (digits <> "") as Hne by (intros ->; cbn in Hbig; unfold Int.INT_MAX in Hbig; lia).
  unfold mapPathToRegisteredAppImage.
  change ("/" +:+ ?s) with (String "/"%char s).
  cbn [Text.strsep_dot]. change (Ascii.eqb "/"%char "."%char) with false. cbv iota.
  rewrite (strsep_dot_digits digits rest Hall), (stoi_digits digits Hall Hne).
  assert (Int.in_int (Text.parse_digits 0 digits) = false) as ->; [| reflexivity].
  unfold Int.in_int. apply andb_false_iff. right. apply Z.leb_gt. exact Hbig.
Qed.

(** X8.  A name whose numeral is too large for an [int] is not answered
    with [-ENOENT]: [std::stoi] throws [std::out_of_range], which neither
    the resolver nor [read] nor [open] catches, so the exception leaves
    the handler; the statics are left alone. *)
Theorem oversized_numeral_escapes_the_handlers (w : World) (st : State) (digits rest : string)
    (m : memory) (buf bufsize offset : Z) (fi : fuse_file_info) (h : vectors) :
  Text.all_digits digits = true ->
  Int.INT_MAX < Text.parse_digits 0 digits ->
  let path := "/" +:+ digits +:+ String "."%char rest in
  read w path m buf bufsize offset fi st = (Throws std_out_of_range, st)
  /\ open w path fi h st = (Throws std_out_of_range, st).
Proof.
  intros Hall Hbig path.
  assert (digits <> "") as Hne by (intros ->; cbn in Hbig; unfold Int.INT_MAX in Hbig; lia).
  destruct (digits_name_is_no_control_file digits (String "."%char rest) Hall Hne)
    as (Hmap & Hreg & _).
  pose proof (mapPath_oversized w st digits rest Hall Hbig) as Hthrow.
  fold path in Hthrow. subst path. split.
  - unfold read. rewrite Hmap, Hreg. unfold try_catch, mbind, M_bind. rewrite Hthrow.
    reflexivity.
  - unfold open. rewrite Hreg, Hmap. cbn [andb].
    unfold try_catch, mbind, M_bind. rewrite Hthrow. reflexivity.
Qed.

Lemma oversized_numeral_escapes_the_handlers_witness :
  read world_live "/4294967296.AppImage" (fun _ => Text.NUL) 4096 4096 0
       {| flags := 0; fh := 0 |} state_a
  = (Throws std_out_of_range, state_a)
  /\ open world_live "/4294967296.AppImage" {| flags := 0; fh := 0 |} ∅ state_a
     = (Throws std_out_of_range, state_a).
Proof.
  apply (oversized_numeral_escapes_the_handlers world_live state_a "4294967296" "AppImage").
  - reflexivity.
  - unfold Int.INT_MAX. cbn. lia.
Defined.

(** ** More on the registry *)

Lemma find_path_None (w : World) (m : gmap Z RegisteredAppImage) (p : string) :
  (forall k e, m !! k = Some e -> bf_path_equal p (_path e) = false) ->
  List.find (fun r : Z * RegisteredAppImage => bf_path_equal p (_path r.2)) (iteration w m)
  = None.
Proof.
  intros Hnone. destruct (List.find _ _) as [[k e] |] eqn:Hfind; [| reflexivity].
  apply find_some in Hfind as [Hin Heq]. cbn in Heq.
  apply list_elem_of_In, elem_of_iteration in Hin.
  rewrite (Hnone k e Hin) in Heq. discriminate.
Qed.

(** A path without a root differs from every path that has one. *)
Lemma names_from_head (s : string) : forall (c : ascii) (cur : string) (after_name : bool),
  exists name rest, names_from s (String c cur) after_name = String c name :: rest.
Proof.
  induction s as [| a r IH]; intros c cur after_name; cbn [names_from].
  - eauto.
  - destruct (Ascii.eqb a "/"%char); [eauto |]. apply IH.
Qed.

Lemma path_elements_relative (c : ascii) (r : string) :
  c <> "/"%char -> exists name rest, path_elements (String c r) = String c name :: rest.
Proof.
  intros Hc.
  assert (path_elements (String c r) = names_from r (String c "") false) as ->.
  { destruct c as [[] [] [] [] [] [] [] []]; try reflexivity. congruence. }
  apply names_from_head.
Qed.

Lemma path_elements_rooted (r : string) :
  exists name rest, path_elements (String "/"%char r) = String "/"%char name :: rest.
Proof.
  destruct r as [| c r]; [cbn; eauto |].
  destruct c as [[] [] [] [] [] [] [] []]; try (cbn; eauto; fail).
  destruct r as [| c r]; [cbn; eauto |].
  destruct c as [[] [] [] [] [] [] [] []]; cbn; eauto.
Qed.

Lemma relative_path_is_no_rooted_path (c : ascii) (r q : string) :
  c <> "/"%char -> bf_path_equal (String c r) (String "/"%char q) = false.
Proof.
  intros Hc. unfold bf_path_equal. apply bool_decide_eq_false.
  destruct (path_elements_relative c r Hc) as (name & rest & ->).
  destruct (path_elements_rooted q) as (name' & rest' & ->).
  congruence.
Qed.

(** A registration that passes the two checks and opens the file. *)
Lemma registerAppImage_new (w : World) (st : State) (p : string) :
  bf_exists w p = Returns true ->
  (forall k e, registeredAppImages st !! k = Some e -> bf_path_equal p (_path e) = false) ->
  0 <= open_rdonly w (bf_absolute w p) ->
  Int.INT_MIN <= counter st < Int.INT_MAX ->
  registeredAppImages st !! counter st = None ->
  registerAppImage w p st
  = (Returns (counter st),
     {| registeredAppImages :=
          <[counter st := {| _id := counter st; _path := bf_absolute w p;
                             _fd := open_rdonly w (bf_absolute w p) |}]>
            (registeredAppImages st);
        counter := counter st + 1 |}).
Proof.
  intros Hex Hnone Hfd Hc Hfresh. rewrite registerAppImage_eq, Hex.
  rewrite (find_path_None w _ p Hnone). cbv zeta.
  destruct (Z.ltb_spec (open_rdonly w (bf_absolute w p)) 0); [lia |].
  rewrite Hfresh, wrap_int_small; [reflexivity |].
  unfold Int.INT_MIN, Int.INT_MAX in *. lia.
Qed.

Lemma registry_ok_fresh (st : State) :
  registry_ok st -> registeredAppImages st !! counter st = None.
Proof.
  intros [_ Hkeys]. destruct (registeredAppImages st !! counter st) as [e |] eqn:He;
    [| reflexivity].
  destruct (Hkeys _ _ He) as [Hk _]. lia.
Qed.

(** X9.  Register, then resolve.  In a state where the counter has not
    wrapped, a path that exists, is equal as a [bf::path] to the stored path
    of no entry and can be opened is registered under the value of the
    counter; as long as the file at its absolute path is a regular file,
    the canonical name of that id resolves to the new entry: the id, the
    absolute path and the descriptor of the open. *)
Theorem register_then_resolve (w w' : World) (st : State) (p : string) :
  registry_ok st ->
  counter st < Int.INT_MAX ->
  bf_exists w p = Returns true ->
  (forall k e, registeredAppImages st !! k = Some e -> bf_path_equal p (_path e) = false) ->
  0 <= open_rdonly w (bf_absolute w p) ->
  bf_is_regular_file w' (bf_absolute w p) = Returns true ->
  exists st',
    registerAppImage w p st = (Returns (counter st), st')
    /\ counter st' = counter st + 1
    /\ mapPathToRegisteredAppImage w' ("/" +:+ generateFilenameForId (counter st)) st'
       = (Returns {| _id := counter st; _path := bf_absolute w p;
                     _fd := open_rdonly w (bf_absolute w p) |}, st').
Proof.
  intros Hok Hc Hex Hnone Hfd Hreg.
  pose proof (registry_ok_fresh st Hok) as Hfresh. destruct Hok as [Hpos _].
  eexists. split; [| split].
  - apply registerAppImage_new; try assumption. unfold Int.INT_MIN. lia.
  - reflexivity.
  - apply mapPath_registered; [lia | apply lookup_insert_eq | exact Hreg].
Qed.

Lemma registry_ok_state_a : registry_ok state_a.
Proof.
  split; [vm_compute; discriminate |]. intros k e Hk.
  change (registeredAppImages state_a)
    with ({[ 0 := {| _id := 0; _path := "/a"; _fd := 3 |} ]} : gmap Z RegisteredAppImage) in Hk.
  apply lookup_singleton_Some in Hk as [<- <-]. change (counter state_a) with 1. cbn. lia.
Qed.

Lemma state_a_paths (p : string) :
  bf_path_equal p "/a" = false ->
  forall k e, registeredAppImages state_a !! k = Some e -> bf_path_equal p (_path e) = false.
Proof.
  intros Hp k e Hk.
  change (registeredAppImages state_a)
    with ({[ 0 := {| _id := 0; _path := "/a"; _fd := 3 |} ]} : gmap Z RegisteredAppImage) in Hk.
  apply lookup_singleton_Some in Hk as [_ <-]. exact Hp.
Qed.

Lemma register_then_resolve_witness :
  exists st',
    registerAppImage world_live "/b" state_a = (Returns 1, st')
    /\ counter st' = 2
    /\ mapPathToRegisteredAppImage world_live "/0001.AppImage" st'
       = (Returns {| _id := 1; _path := "/b"; _fd := 3 |}, st').
Proof.
  apply (register_then_resolve world_live world_live state_a "/b").
  - exact registry_ok_state_a.
  - vm_compute. reflexivity.
  - reflexivity.
  - apply state_a_paths. reflexivity.
  - vm_compute. discriminate.
  - reflexivity.
Defined.

(** X10.  An id is spent on a file that cannot be opened: when the path
    exists and is equal as a [bf::path] to no stored path but [::open]
    fails, the registration throws [CouldNotOpenFileError], no entry is
    added, and the counter has moved on all the same. *)
Theorem registerAppImage_open_failure_spends_an_id (w : World) (st : State) (p : string) :
  bf_exists w p = Returns true ->
  (forall k e, registeredAppImages st !! k = Some e -> bf_path_equal p (_path e) = false) ->
  open_rdonly w (bf_absolute w p) < 0 ->
  registerAppImage w p st
  = (Throws CouldNotOpenFileError,
     {| registeredAppImages := registeredAppImages st;
        counter := Int.wrap_int (counter st + 1) |}).
Proof.
  intros Hex Hnone Hfd. rewrite registerAppImage_eq, Hex.
  rewrite (find_path_None w _ p Hnone). cbv zeta.
  destruct (Z.ltb_spec (open_rdonly w (bf_absolute w p)) 0); [reflexivity | lia].
Qed.

Lemma registerAppImage_open_failure_spends_an_id_witness :
  registerAppImage world_live "/locked" state_a
  = (Throws CouldNotOpenFileError,
     {| registeredAppImages := registeredAppImages state_a; counter := 2 |}).
Proof.
  apply (registerAppImage_open_failure_spends_an_id world_live state_a "/locked").
  - reflexivity.
  - apply state_a_paths. reflexivity.
  - vm_compute. reflexivity.
Defined.

(** X11.  The duplicate check misses relative paths.  The search compares
    the path as given with the stored absolute paths, so a path that is not
    equal, as a [bf::path], to what [bf::absolute] makes of it is
    registered again on a second call: the two ids hold the same stored
    path. *)
Theorem relative_path_registers_twice (w : World) (st : State) (p : string) :
  registry_ok st ->
  counter st + 1 < Int.INT_MAX ->
  bf_exists w p = Returns true ->
  0 <= open_rdonly w (bf_absolute w p) ->
  bf_path_equal p (bf_absolute w p) = false ->
  (forall k e, registeredAppImages st !! k = Some e -> bf_path_equal p (_path e) = false) ->
  exists st1 st2,
    registerAppImage w p st = (Returns (counter st), st1)
    /\ registerAppImage w p st1 = (Returns (counter st + 1), st2)
    /\ _path <$> registeredAppImages st2 !! counter st = Some (bf_absolute w p)
    /\ _path <$> registeredAppImages st2 !! (counter st + 1) = Some (bf_absolute w p).
Proof.
  intros Hok Hc Hex Hfd Hrel Hnone.
  pose proof (registry_ok_fresh st Hok) as Hfresh. destruct Hok as [Hpos Hkeys].
  eexists. eexists. split; [| split; [| split]].
  - apply registerAppImage_new; try assumption. unfold Int.INT_MIN. lia.
  - rewrite registerAppImage_new; cbn [registeredAppImages counter]; try assumption.
    + reflexivity.
    + intros k e Hk. apply lookup_insert_Some in Hk as [[_ <-] | [_ Hk]].
      * cbn. exact Hrel.
      * apply (Hnone k e Hk).
    + unfold Int.INT_MIN. lia.
    + rewrite lookup_insert_ne by lia.
      destruct (registeredAppImages st !! (counter st + 1)) as [e |] eqn:He; [| reflexivity].
      destruct (Hkeys _ _ He). lia.
  - cbn [registeredAppImages]. rewrite lookup_insert_ne by lia.
    rewrite lookup_insert_eq. reflexivity.
  - cbn [registeredAppImages]. rewrite lookup_insert_eq. reflexivity.
Qed.

Lemma relative_path_registers_twice_witness :
  exists st1 st2,
    registerAppImage world_live "x" state_a = (Returns 1, st1)
    /\ registerAppImage world_live "x" st1 = (Returns 2, st2)
    /\ _path <$> registeredAppImages st2 !! 1 = Some "/home/user/x"
    /\ _path <$> registeredAppImages st2 !! 2 = Some "/home/user/x".
Proof.
  apply (relative_path_registers_twice world_live state_a "x").
  - exact registry_ok_state_a.
  - vm_compute. reflexivity.
  - reflexivity.
  - vm_compute. discriminate.
  - reflexivity.
  - apply state_a_paths. reflexivity.
Defined.

(** ** The listing *)

(** The first loop of [generateTextMap] when every status query answers:
    the text grows by the lines of the live entries, the set by the ids of
    the others. *)
Lemma generateTextMap_loop_returns (w : World) (l : list (Z * RegisteredAppImage)) :
  forall acc : string * gset Z,
  (forall entry, entry ∈ l ->
     exists b, RegisteredAppImage_.checkExistsOnDisk w entry.2 = Returns b) ->
  generateTextMap_loop w l acc
  = Returns
      (acc.1 +:+ foldr (fun entry text => listing_line entry +:+ text) "" (filter (live w) l),
       acc.2 ∪ list_to_set ((filter (fun entry => ~ live w entry) l).*1)).
Proof.
  induction l as [| entry l IH]; intros [text ids] Hanswer; cbn [generateTextMap_loop fst snd].
  - cbn. rewrite append_nil_r. do 2 f_equal. set_solver.
  - destruct (Hanswer entry ltac:(set_solver)) as [b Hb]. rewrite Hb.
    rewrite IH by (intros e He; apply Hanswer; set_solver).
    destruct b; cbn [negb fst snd].
    + rewrite filter_cons_True by exact Hb.
      rewrite filter_cons_False by (unfold live; rewrite Hb; tauto).
      cbn [foldr]. do 2 f_equal. rewrite append_assoc. reflexivity.
    + rewrite filter_cons_False by (unfold live; rewrite Hb; discriminate).
      rewrite filter_cons_True by (unfold live; rewrite Hb; discriminate).
      do 2 f_equal. cbn. set_solver.
Qed.

(** The first status query that fails ends the loop. *)
Lemma generateTextMap_loop_throws (w : World) (l : list (Z * RegisteredAppImage)) :
  forall acc : string * gset Z,
  (exists entry, entry ∈ l
     /\ RegisteredAppImage_.checkExistsOnDisk w entry.2 = Throws boost_filesystem_error) ->
  generateTextMap_loop w l acc = Throws boost_filesystem_error.
Proof.
  induction l as [| entry l IH]; intros acc (bad & Hin & Hbad).
  - apply elem_of_nil in Hin. contradiction.
  - cbn [generateTextMap_loop].
    destruct (checkExistsOnDisk_outcome w entry.2) as [[b Hb] | Hb]; rewrite Hb;
      [| reflexivity].
    apply IH. exists bad. split; [| exact Hbad].
    apply elem_of_cons in Hin as [-> | Hin]; [congruence | exact Hin].
Qed.

(** Every status query of a list of entries answers, or one of them
    fails. *)
Lemma status_queries_answer_or_fail (w : World) (l : list (Z * RegisteredAppImage)) :
  (forall entry, entry ∈ l ->
     exists b, RegisteredAppImage_.checkExistsOnDisk w entry.2 = Returns b)
  \/ (exists entry, entry ∈ l
        /\ RegisteredAppImage_.checkExistsOnDisk w entry.2 = Throws boost_filesystem_error).
Proof.
  induction l as [| entry l [IH | (bad & Hin & Hbad)]].
  - left. intros entry Hin. apply elem_of_nil in Hin. contradiction.
  - destruct (checkExistsOnDisk_outcome w entry.2) as [Hb | Hb].
    + left. intros e He. apply elem_of_cons in He as [-> | He]; [exact Hb | apply IH, He].
    + right. exists entry. split; [left | exact Hb].
  - right. exists bad. split; [right; exact Hin | exact Hbad].
Qed.

Lemma registry_answers_or_fails (w : World) (st : State) :
  (forall k e, registeredAppImages st !! k = Some e ->
     exists b, RegisteredAppImage_.checkExistsOnDisk w e = Returns b)
  \/ (exists k e, registeredAppImages st !! k = Some e
        /\ RegisteredAppImage_.checkExistsOnDisk w e = Throws boost_filesystem_error).
Proof.
  destruct (status_queries_answer_or_fail w (map_to_list (registeredAppImages st)))
    as [Hall | ([k e] & Hin & Hbad)].
  - left. intros k e He. apply (Hall (k, e)). apply elem_of_map_to_list, He.
  - right. exists k, e. split; [apply elem_of_map_to_list, Hin | exact Hbad].
Qed.

Lemma erase_all_lookup (ids : list Z) : forall st : State,
  exists m,
    foldr (fun id rest => erase id;; rest) (mret tt) ids st
    = (Returns tt, {| registeredAppImages := m; counter := counter st |})
    /\ forall k, m !! k = if decide (k ∈ ids) then None else registeredAppImages st !! k.
Proof.
  induction ids as [| id ids IH]; intros st.
  - exists (registeredAppImages st). split.
    + cbn. unfold_M. rewrite State_eta. reflexivity.
    + intros k. rewrite decide_False by set_solver. reflexivity.
  - cbn [foldr]. rewrite erase_then.
    destruct (IH {| registeredAppImages := delete id (registeredAppImages st);
                    counter := counter st |}) as (m & Hm & Hlookup).
    exists m. split; [exact Hm |]. intros k. rewrite Hlookup. cbn [registeredAppImages].
    destruct (decide (k ∈ ids)) as [Hin | Hnin].
    + rewrite decide_True by set_solver. reflexivity.
    + destruct (decide (k = id)) as [-> | Hne].
      * rewrite decide_True by set_solver. apply lookup_delete_eq.
      * rewrite decide_False by set_solver. apply lookup_delete_ne. congruence.
Qed.

(** [generateTextMap] in one equation, when the status query of every
    stored path answers: the lines of the live entries in the iteration
    order, and the registry without the others. *)
Lemma generateTextMap_eq (w : World) (st : State) :
  (forall k e, registeredAppImages st !! k = Some e ->
     exists b, RegisteredAppImage_.checkExistsOnDisk w e = Returns b) ->
  generateTextMap w st
  = (Returns (foldr (fun entry text => listing_line entry +:+ text) ""
                    (filter (live w) (iteration w (registeredAppImages st)))),
     {| registeredAppImages := filter (live w) (registeredAppImages st);
        counter := counter st |}).
Proof.
  intros Hanswer. rewrite generateTextMap_unfold.
  rewrite generateTextMap_loop_returns
    by (intros [k e] Hin; apply elem_of_iteration in Hin; apply (Hanswer k e Hin)).
  cbn [fst snd].
  destruct (erase_all_lookup
              (elements (∅ ∪ list_to_set
                 ((filter (fun entry => ~ live w entry)
                          (iteration w (registeredAppImages st))).*1) : gset Z)) st)
    as (m & Hm & Hlookup).
  rewrite (bind_returns _ _ _ _ _ Hm). unfold mret, M_ret. f_equal. f_equal.
  apply map_eq. intros k. rewrite Hlookup. apply option_eq. intros e.
  rewrite map_lookup_filter_Some. unfold live. cbn [snd].
  destruct (decide (k ∈ elements _)) as [Hin | Hnin].
  - split; [discriminate |]. intros [Hk Hlive]. exfalso.
    apply elem_of_elements, elem_of_union in Hin as [Hin | Hin]; [set_solver |].
    apply elem_of_list_to_set, list_elem_of_fmap in Hin as ([k' e'] & -> & Hin).
    apply list_elem_of_filter in Hin as [Hdead Hin].
    apply elem_of_iteration in Hin. cbn in *. unfold live in Hdead. cbn in Hdead.
    congruence.
  - split; [| tauto]. intros Hk. split; [exact Hk |].
    destruct (Hanswer k e Hk) as [[|] Hlive]; [exact Hlive |].
    exfalso. apply Hnin. apply elem_of_elements, elem_of_union. right.
    apply elem_of_list_to_set, list_elem_of_fmap. exists (k, e). split; [reflexivity |].
    apply list_elem_of_filter. split.
    + unfold live. cbn. rewrite Hlive. discriminate.
    + apply elem_of_iteration, Hk.
Qed.

(** When the status query of a stored path fails, the error of Boost
    leaves [generateTextMap] before anything is erased. *)
Lemma generateTextMap_status_error (w : World) (st : State) :
  (exists k e, registeredAppImages st !! k = Some e
     /\ RegisteredAppImage_.checkExistsOnDisk w e = Throws boost_filesystem_error) ->
  generateTextMap w st = (Throws boost_filesystem_error, st).
Proof.
  intros (k & e & He & Hbad). rewrite generateTextMap_unfold.
  rewrite generateTextMap_loop_throws; [reflexivity |].
  exists (k, e). split; [apply elem_of_iteration, He | exact Hbad].
Qed.

(** The status queries of the entries that a listing keeps answer. *)
Lemma swept_answers (w : World) (m : gmap Z RegisteredAppImage) (k : Z)
    (e : RegisteredAppImage) :
  filter (live w) m !! k = Some e ->
  exists b, RegisteredAppImage_.checkExistsOnDisk w e = Returns b.
Proof.
  intros Hk. apply map_lookup_filter_Some in Hk as [_ Hlive]. exists true. exact Hlive.
Qed.

(** X12.  The listing evicts exactly the stale entries.  When the status
    query of every stored path answers, the registry after
    [generateTextMap] holds the entries whose file is a regular file on
    disk and no other, the counter is as it was, and a second listing on
    the same disk changes nothing more.  When the status query of a stored
    path fails, the [boost::filesystem::filesystem_error] leaves
    [generateTextMap] and nothing is evicted.  There is no third case. *)
Theorem generateTextMap_keeps_the_live_entries (w : World) (st : State) :
  let swept := {| registeredAppImages := filter (live w) (registeredAppImages st);
                  counter := counter st |} in
  (((forall k e, registeredAppImages st !! k = Some e ->
       exists b, RegisteredAppImage_.checkExistsOnDisk w e = Returns b)
    /\ (generateTextMap w st).2 = swept)
   \/ ((exists k e, registeredAppImages st !! k = Some e
          /\ RegisteredAppImage_.checkExistsOnDisk w e = Throws boost_filesystem_error)
       /\ generateTextMap w st = (Throws boost_filesystem_error, st)))
  /\ (forall k e, registeredAppImages swept !! k = Some e
                  <-> registeredAppImages st !! k = Some e
                      /\ RegisteredAppImage_.checkExistsOnDisk w e = Returns true)
  /\ (generateTextMap w swept).2 = swept.
Proof.
  intros swept. split; [| split].
  - destruct (registry_answers_or_fails w st) as [Hanswer | Hbad].
    + left. split; [exact Hanswer |]. rewrite generateTextMap_eq by exact Hanswer.
      reflexivity.
    + right. split; [exact Hbad | apply generateTextMap_status_error, Hbad].
  - intros k e. subst swept. cbn [registeredAppImages].
    rewrite map_lookup_filter_Some. reflexivity.
  - rewrite generateTextMap_eq by (subst swept; intros k e; apply swept_answers).
    subst swept. cbn [registeredAppImages counter snd].
    f_equal. apply map_filter_id. intros k e Hk.
    apply map_lookup_filter_Some in Hk as [_ Hlive]. exact Hlive.
Qed.

Lemma length_foldr_append (ls : list string) :
  String.length (foldr String.append "" ls) = foldr Nat.add 0%nat (String.length <$> ls).
Proof.
  induction ls as [| x ls IH]; [reflexivity |].
  cbn [foldr fmap list_fmap]. rewrite length_append, IH. reflexivity.
Qed.

Lemma foldr_lines (l : list (Z * RegisteredAppImage)) :
  foldr (fun entry text => listing_line entry +:+ text) "" l
  = foldr String.append "" (listing_line <$> l).
Proof.
  induction l as [| entry l IH]; [reflexivity |].
  cbn [foldr fmap list_fmap]. rewrite IH. reflexivity.
Qed.

(** X13.  The lines of the listing do not depend on the order of the
    loop.  When the status query of every stored path answers, then
    whatever order the map is met in, [generateTextMap] returns the lines
    [<name> -> <stored path>] of the entries whose file is on disk, each of
    these entries once and no other line, put one after the other in some
    order; so the length of the text is the same in every order. *)
Theorem generateTextMap_text (w : World) (st : State) :
  (forall k e, registeredAppImages st !! k = Some e ->
     exists b, RegisteredAppImage_.checkExistsOnDisk w e = Returns b) ->
  let live_lines :=
    listing_line <$> filter (live w) (map_to_list (registeredAppImages st)) in
  exists lines text,
    (generateTextMap w st).1 = Returns text
    /\ text = foldr String.append "" lines
    /\ lines ≡ₚ live_lines
    /\ String.length text = foldr Nat.add 0%nat (String.length <$> live_lines).
Proof.
  intros Hanswer live_lines.
  assert (listing_line <$> filter (live w) (iteration w (registeredAppImages st))
          ≡ₚ live_lines) as Hperm.
  { subst live_lines. rewrite (iteration_Permutation w (registeredAppImages st)).
    reflexivity. }
  eexists. eexists. split; [| split; [| split]].
  - rewrite generateTextMap_eq by exact Hanswer. cbn [fst]. rewrite foldr_lines.
    reflexivity.
  - reflexivity.
  - exact Hperm.
  - rewrite length_foldr_append. rewrite Hperm. reflexivity.
Qed.

Lemma generateTextMap_text_witness :
  exists lines text,
    (generateTextMap world_gone state_ab).1 = Returns text
    /\ text = foldr String.append "" lines
    /\ lines ≡ₚ ["0001.AppImage -> /b" +:+ endl]
    /\ String.length text = 20%nat.
Proof.
  apply (generateTextMap_text world_gone state_ab).
  intros k e Hk.
  destruct (bf_is_regular_file_outcome world_gone (_path e)) as [Hb | Hb]; [exact Hb |].
  exfalso. unfold state_ab in Hk. cbn [registeredAppImages] in Hk.
  apply lookup_insert_Some in Hk as [[_ <-] | [_ Hk]]; [discriminate Hb |].
  apply lookup_singleton_Some in Hk as [_ <-]. discriminate Hb.
Defined.

Example generateTextMap_two_entries :
  generateTextMap world_gone state_ab
  = (Returns ("0001.AppImage -> /b" +:+ endl),
     {| registeredAppImages := {[ 1 := {| _id := 1; _path := "/b"; _fd := 3 |} ]};
        counter := 2 |}).
Proof. vm_compute. reflexivity. Qed.

(** ** What a run keeps *)

Lemma registry_ok_subseteq (st : State) (m : gmap Z RegisteredAppImage) :
  registry_ok st -> m ⊆ registeredAppImages st ->
  registry_ok {| registeredAppImages := m; counter := counter st |}.
Proof.
  intros [Hpos Hkeys] Hsub. split; [exact Hpos |]. intros k e Hk. cbn in *.
  apply (Hkeys k e). rewrite map_subseteq_spec in Hsub. apply Hsub, Hk.
Qed.

Lemma serve_keeps_registry_ok (r : request) (st : State) :
  registry_ok st -> counter st < Int.INT_MAX -> registry_ok (serve r st).2.
Proof.
  intros Hok Hc. pose proof Hok as [Hpos Hkeys].
  destruct r as [w path | w path | w]; cbn [serve].
  - rewrite registerAppImage_eq.
    assert (Int.wrap_int (counter st + 1) = counter st + 1) as Hwrap
      by (apply wrap_int_small; unfold Int.INT_MIN, Int.INT_MAX in *; lia).
    destruct (bf_exists w path) as [[|] | ex |]; try exact Hok.
    destruct (List.find _ _) as [e |]; [exact Hok |].
    cbv zeta. rewrite Hwrap, (registry_ok_fresh st Hok).
    destruct (Z.ltb_spec (open_rdonly w (bf_absolute w path)) 0) as [Hfd | Hfd]; cbn [snd].
    + split; [cbn; lia |]. intros k e Hk. cbn in *. destruct (Hkeys k e Hk) as (? & ? & ?).
      repeat split; try assumption; lia.
    + split; [cbn; lia |]. intros k e Hk. cbn in *.
      apply lookup_insert_Some in Hk as [[<- <-] | [_ Hk]].
      * cbn. repeat split; try lia.
      * destruct (Hkeys k e Hk) as (? & ? & ?). repeat split; try assumption; lia.
  - cbn [snd]. destruct (mapPath_state w path st) as [-> | [id ->]]; [exact Hok |].
    apply registry_ok_subseteq; [exact Hok | apply delete_subseteq].
  - cbn [snd]. destruct (registry_answers_or_fails w st) as [Hanswer | Hbad].
    + rewrite generateTextMap_eq by exact Hanswer. cbn [snd].
      apply registry_ok_subseteq; [exact Hok | apply map_filter_subseteq].
    + rewrite generateTextMap_status_error by exact Hbad. exact Hok.
Qed.

Lemma run_keeps_registry_ok (rs : list request) : forall st : State,
  registry_ok st ->
  counter st + Z.of_nat (length rs) <= Int.INT_MAX ->
  registry_ok (run rs st).2.
Proof.
  induction rs as [| r rs IH]; intros st Hok Hlen; [exact Hok |].
  rewrite run_cons. cbn [snd]. cbn [length] in Hlen. rewrite Nat2Z.inj_succ in Hlen.
  pose proof Hok as [Hpos _].
  destruct (serve_counter r st ltac:(lia)) as [Hstep _].
  apply IH; [apply serve_keeps_registry_ok; [exact Hok | lia] | lia].
Qed.

(** X14.  What every run from the start of the process keeps, as long as
    it is no longer than [INT_MAX] calls: the keys of the registry are ids
    that the counter has handed out (from 0, below the counter), every
    entry carries its own key as its id, and its descriptor is not
    negative.  The default-constructed entry (id -1, descriptor -1) that a
    look-up inserts never stays. *)
Theorem run_keeps_the_registry_well_formed (rs : list request) :
  Z.of_nat (length rs) <= Int.INT_MAX ->
  forall k e, registeredAppImages (run rs initial_state).2 !! k = Some e ->
    0 <= k < counter (run rs initial_state).2 /\ _id e = k /\ 0 <= _fd e.
Proof.
  intros Hlen.
  assert (registry_ok initial_state) as Hinit.
  { split; [cbn; lia |]. intros k e Hk. cbn in Hk. rewrite lookup_empty in Hk. discriminate. }
  destruct (run_keeps_registry_ok rs initial_state Hinit) as [_ Hkeys]; [cbn; lia |].
  exact Hkeys.
Qed.

Lemma run_keeps_the_registry_well_formed_witness :
  0 <= 2 < counter (run [Register world_live "/a"; Lookup world_live "/0005.AppImage";
                         Register world_live "/locked"; Register world_live "/b"]
                        initial_state).2
  /\ _id {| _id := 2; _path := "/b"; _fd := 3 |} = 2
  /\ 0 <= _fd {| _id := 2; _path := "/b"; _fd := 3 |}.
Proof.
  apply (run_keeps_the_registry_well_formed
           [Register world_live "/a"; Lookup world_live "/0005.AppImage";
            Register world_live "/locked"; Register world_live "/b"]).
  - unfold Int.INT_MAX. cbn. lia.
  - vm_compute. reflexivity.
Defined.

Example run_with_a_failed_open :
  (run [Register world_live "/a"; Lookup world_live "/0005.AppImage";
        Register world_live "/locked"; Register world_live "/b"] initial_state)
  = ([0; 2],
     {| registeredAppImages :=
          {[ 0 := {| _id := 0; _path := "/a"; _fd := 3 |};
             2 := {| _id := 2; _path := "/b"; _fd := 3 |} ]};
        counter := 3 |}).
Proof. vm_compute. reflexivity. Qed.

(** ** The registrations of the constructor *)

Lemma bf_absolute_rooted (w : World) (r : string) :
  bf_absolute w (String "/"%char r) = String "/"%char r.
Proof. reflexivity. Qed.

Lemma regular_file_exists (w : World) (p : string) :
  bf_is_regular_file w p = Returns true -> bf_exists w p = Returns true.
Proof.
  unfold bf_is_regular_file, bf_exists. destruct (bf_status w p) as [[] |]; congruence.
Qed.

Lemma register_each_from (w : World) (entries : list string) : forall st : State,
  registry_ok st ->
  counter st + Z.of_nat (length entries) <= Int.INT_MAX ->
  NoDup (path_elements <$> entries) ->
  (forall p, p ∈ entries ->
     (exists r, p = String "/"%char r)
     /\ bf_is_regular_file w p = Returns true /\ 0 <= open_rdonly w p) ->
  (forall p, p ∈ entries ->
     forall k e, registeredAppImages st !! k = Some e -> bf_path_equal p (_path e) = false) ->
  exists st',
    register_each w entries st = (Returns tt, st')
    /\ counter st' = counter st + Z.of_nat (length entries)
    /\ registry_ok st'
    /\ (forall (i : nat) p, entries !! i = Some p ->
          registeredAppImages st' !! (counter st + Z.of_nat i)
          = Some {| _id := counter st + Z.of_nat i; _path := p; _fd := open_rdonly w p |})
    /\ (forall k, k < counter st -> registeredAppImages st' !! k = registeredAppImages st !! k).
Proof.
  induction entries as [| p rest IH]; intros st Hok Hlen Hnodup Hfiles Hnew.
  - exists st. split; [reflexivity |]. split; [cbn; lia |]. split; [exact Hok |].
    split; [| reflexivity]. intros i p Hi. rewrite lookup_nil in Hi. discriminate.
  - cbn [length] in Hlen. rewrite Nat2Z.inj_succ in Hlen.
    rewrite fmap_cons in Hnodup. apply NoDup_cons in Hnodup as [Hp Hnodup].
    destruct (Hfiles p ltac:(set_solver)) as ([r ->] & Hreg & Hfd).
    pose proof (registry_ok_fresh st Hok) as Hfresh. pose proof Hok as [Hpos Hkeys].
    set (entry := {| _id := counter st; _path := String "/"%char r;
                     _fd := open_rdonly w (String "/"%char r) |}).
    set (st1 := {| registeredAppImages := <[counter st := entry]> (registeredAppImages st);
                   counter := counter st + 1 |}).
    assert (registerAppImage w (String "/"%char r) st = (Returns (counter st), st1)) as Hone.
    { apply registerAppImage_new; try assumption.
      - apply regular_file_exists, Hreg.
      - apply Hnew. set_solver.
      - unfold Int.INT_MIN. lia. }
    assert (registry_ok st1) as Hok1.
    { split; [cbn; lia |]. intros k e Hk. cbn in Hk.
      apply lookup_insert_Some in Hk as [[<- <-] | [_ Hk]].
      - cbn. repeat split; lia.
      - destruct (Hkeys k e Hk) as (? & ? & ?). cbn. repeat split; try assumption; lia. }
    destruct (IH st1 Hok1) as (st' & Hrun & Hcount & Hok' & Hentries & Hold).
    + cbn. lia.
    + exact Hnodup.
    + intros q Hq. apply Hfiles. set_solver.
    + intros q Hq k e Hk. cbn in Hk. apply lookup_insert_Some in Hk as [[_ <-] | [_ Hk]].
      * cbn [_path entry]. unfold bf_path_equal. apply bool_decide_eq_false.
        intros Heq. apply Hp. rewrite <- Heq. apply list_elem_of_fmap_2, Hq.
      * apply (Hnew q ltac:(set_solver) k e Hk).
    + exists st'. split; [| split; [| split; [| split]]].
      * cbn [register_each]. rewrite Hreg.
        erewrite bind_returns; [exact Hrun |].
        rewrite lift_returns. cbn [negb].
        erewrite bind_returns; [reflexivity | exact Hone].
      * rewrite Hcount. unfold st1. cbn [counter length]. lia.
      * exact Hok'.
      * intros [| i] q Hi.
        -- cbn in Hi. injection Hi as <-. rewrite Z.add_0_r.
           rewrite Hold by (cbn; lia). cbn. apply lookup_insert_eq.
        -- cbn in Hi. specialize (Hentries i q Hi). unfold st1 in Hentries.
           cbn [counter] in Hentries.
           replace (counter st + Z.of_nat (S i)) with (counter st + 1 + Z.of_nat i) by lia.
           exact Hentries.
      * intros k Hk. rewrite Hold by (cbn; lia). cbn. apply lookup_insert_ne. lia.
Qed.

(** X15.  What the constructor leaves in the registry.  When the
    applications directory is a directory and the iterator yields absolute
    paths of regular files that open, no two of them equal as [bf::path]
    values, the files are numbered from 0 in the order of the iterator: the
    entry of id [i] holds the [i]-th path, and the counter is the number of
    files. *)
Theorem PrivateData_registrations_number_the_files (w : World) (applicationsDir : string)
    (entries : list string) :
  bf_is_directory w applicationsDir = Returns true ->
  Z.of_nat (length entries) <= Int.INT_MAX ->
  NoDup (path_elements <$> entries) ->
  (forall p, p ∈ entries ->
     (exists r, p = String "/"%char r)
     /\ bf_is_regular_file w p = Returns true /\ 0 <= open_rdonly w p) ->
  exists st',
    PrivateData_registrations w applicationsDir entries initial_state = (Returns tt, st')
    /\ counter st' = Z.of_nat (length entries)
    /\ (forall (i : nat) p, entries !! i = Some p ->
          registeredAppImages st' !! Z.of_nat i
          = Some {| _id := Z.of_nat i; _path := p; _fd := open_rdonly w p |})
    /\ (forall k e, registeredAppImages st' !! k = Some e ->
          0 <= k < Z.of_nat (length entries)).
Proof.
  intros Hdir Hlen Hnodup Hfiles. unfold PrivateData_registrations.
  rewrite Hdir, lift_returns.
  assert (registry_ok initial_state) as Hinit.
  { split; [cbn; lia |]. intros k e Hk. cbn in Hk. rewrite lookup_empty in Hk. discriminate. }
  destruct (register_each_from w entries initial_state Hinit) as
    (st' & Hrun & Hcount & [_ Hkeys] & Hentries & _); try assumption.
  - intros p _ k e Hk. cbn in Hk. rewrite lookup_empty in Hk. discriminate.
  - exists st'. cbn in Hcount, Hentries. split; [exact Hrun |]. split; [exact Hcount |].
    split; [exact Hentries |]. intros k e Hk. destruct (Hkeys k e Hk) as [Hk' _]. lia.
Qed.

Lemma PrivateData_registrations_number_the_files_witness :
  exists st',
    PrivateData_registrations world_apps "/apps"
      ["/apps/one.AppImage"; "/apps/two.AppImage"] initial_state = (Returns tt, st')
    /\ counter st' = 2
    /\ (forall (i : nat) p, ["/apps/one.AppImage"; "/apps/two.AppImage"] !! i = Some p ->
          registeredAppImages st' !! Z.of_nat i
          = Some {| _id := Z.of_nat i; _path := p; _fd := open_rdonly world_apps p |})
    /\ (forall k e, registeredAppImages st' !! k = Some e -> 0 <= k < 2).
Proof.
  apply (PrivateData_registrations_number_the_files world_apps "/apps"
           ["/apps/one.AppImage"; "/apps/two.AppImage"]).
  - reflexivity.
  - unfold Int.INT_MAX. cbn. lia.
  - apply NoDup_cons. split; [| apply NoDup_singleton].
    rewrite list_elem_of_singleton. vm_compute. discriminate.
  - intros p Hp. apply elem_of_cons in Hp as [-> | Hp].
    + split; [eexists; reflexivity |]. split; [reflexivity | vm_compute; discriminate].
    + apply list_elem_of_singleton in Hp as ->.
      split; [eexists; reflexivity |]. split; [reflexivity | vm_compute; discriminate].
Defined.

(** ** [getattr] *)

Lemma count_slash_append (s t : string) :
  count_slash (s +:+ t) = count_slash s + count_slash t.
Proof.
  induction s as [| c s IH]; [reflexivity |]. rewrite append_cons. cbn [count_slash].
  rewrite IH. lia.
Qed.

Lemma count_slash_nonneg (s : string) : 0 <= count_slash s.
Proof. induction s as [| c s IH]; cbn [count_slash]; [lia |]. destruct (Ascii.eqb c "/"); lia. Qed.

Lemma count_slash_digits (s : string) : Text.all_digits s = true -> count_slash s = 0.
Proof.
  induction s as [| c s IH]; [reflexivity |]. cbn. intros Hs.
  apply andb_true_iff in Hs as [Hc Hs]. rewrite (IH Hs). unfold Text.is_digit in Hc.
  destruct c as [[] [] [] [] [] [] [] []]; try discriminate Hc; reflexivity.
Qed.

Lemma mapPath_absent (w : World) (st : State) (id : Z) :
  0 <= id <= Int.INT_MAX ->
  registeredAppImages st !! id = None ->
  mapPathToRegisteredAppImage w ("/" +:+ generateFilenameForId id) st
  = (Throws CouldNotFindRegisteredAppImageError, st).
Proof.
  intros Hid Hnone. rewrite (mapPath_canonical w id st Hid).
  unfold index, erase. unfold_M. rewrite Hnone. cbn.
  rewrite (delete_insert_id _ _ _ Hnone). rewrite State_eta. reflexivity.
Qed.

(** A canonical name passes the checks of [getattr] and is none of its
    synthetic entries. *)
Lemma getattr_canonical (w : World) (host : Host) (id : Z) (st : stat) (s : State) :
  0 <= id <= Int.INT_MAX ->
  getattr w host ("/" +:+ generateFilenameForId id) st s
  = match mapPathToRegisteredAppImage w ("/" +:+ generateFilenameForId id) s with
    | (Returns registeredAppImage, s') =>
        match sys_stat host (_path registeredAppImage) with
        | None => (getattr_runtime_error, s')
        | Some st' =>
            (getattr_returns 0
               {| st_mode := Z.lor S_IFREG MODE_0555; st_nlink := 1;
                  st_uid := st_uid st'; st_gid := st_gid st'; st_size := st_size st';
                  st_atim := st_atim st'; st_mtim := st_mtim st' |}, s')
        end
    | (Throws e, s') =>
        if is_CouldNotFindRegisteredAppImageError e then (getattr_returns (- ENOENT) st, s')
        else (getattr_throws e, s')
    | (Undefined, s') => (getattr_undefined, s')
    end.
Proof.
  intros Hid. destruct (canonical_numeral id Hid) as (Hall & Hne & _). cbv zeta in Hall, Hne.
  unfold getattr.
  assert (count_slash ("/" +:+ generateFilenameForId id) = 1) as ->.
  { unfold generateFilenameForId. change ("/" +:+ ?x) with (String "/"%char x).
    cbn [count_slash]. change (Ascii.eqb "/" "/") with true. cbv iota.
    rewrite count_slash_append, (count_slash_digits _ Hall). reflexivity. }
  change (find_slash ("/" +:+ generateFilenameForId id)) with (Some 0).
  change (1 =? 1) with true. cbn [negb]. rewrite bool_decide_eq_true_2 by reflexivity.
  cbn [negb].
  unfold generateFilenameForId.
  destruct (digits_name_is_no_control_file _ ".AppImage" Hall Hne) as (-> & -> & ->).
  reflexivity.
Qed.

(** X16.  [getattr] of a registered file whose file is on disk hands on
    what [::stat] says of the stored path (owner, size, times) with the
    mode set to a regular file with permissions 0555 and the link count
    set to 1, and leaves the statics alone; when [::stat] fails, a
    [std::runtime_error] leaves the handler. *)
Theorem getattr_of_a_registered_file (w : World) (host : Host) (s : State) (id : Z)
    (e : RegisteredAppImage) (st : stat) :
  0 <= id <= Int.INT_MAX ->
  registeredAppImages s !! id = Some e ->
  RegisteredAppImage_.checkExistsOnDisk w e = Returns true ->
  getattr w host ("/" +:+ generateFilenameForId id) st s
  = match sys_stat host (_path e) with
    | Some st' =>
        (getattr_returns 0
           {| st_mode := Z.lor S_IFREG MODE_0555; st_nlink := 1;
              st_uid := st_uid st'; st_gid := st_gid st'; st_size := st_size st';
              st_atim := st_atim st'; st_mtim := st_mtim st' |}, s)
    | None => (getattr_runtime_error, s)
    end.
Proof.
  intros Hid He Hlive. rewrite (getattr_canonical w host id st s Hid).
  rewrite (mapPath_registered w s id e Hid He Hlive). reflexivity.
Qed.

Lemma getattr_of_a_registered_file_witness :
  getattr world_live host_live "/0000.AppImage" stat_zero state_a
  = (getattr_returns 0
       {| st_mode := 33133; st_nlink := 1; st_uid := 1000; st_gid := 1000;
          st_size := 16; st_atim := (1600000000, 5); st_mtim := (1600000001, 7) |},
     state_a).
Proof.
  apply (getattr_of_a_registered_file world_live host_live state_a 0
           {| _id := 0; _path := "/a"; _fd := 3 |} stat_zero).
  - unfold Int.INT_MAX. lia.
  - vm_compute. reflexivity.
  - reflexivity.
Defined.

(** X17.  [getattr] of a canonical name that is not served returns
    [-ENOENT] and leaves the [stat] buffer as it was: when the id has no
    entry the statics are unchanged, when the file of its entry is gone
    from the disk the entry is erased. *)
Theorem getattr_of_an_unserved_name (w : World) (host : Host) (s : State) (id : Z) (st : stat) :
  0 <= id <= Int.INT_MAX ->
  (registeredAppImages s !! id = None ->
   getattr w host ("/" +:+ generateFilenameForId id) st s = (getattr_returns (- ENOENT) st, s))
  /\ (forall e, registeredAppImages s !! id = Some e ->
        RegisteredAppImage_.checkExistsOnDisk w e = Returns false ->
        getattr w host ("/" +:+ generateFilenameForId id) st s
        = (getattr_returns (- ENOENT) st,
           {| registeredAppImages := delete id (registeredAppImages s);
              counter := counter s |})).
Proof.
  intros Hid. split.
  - intros Hnone. rewrite (getattr_canonical w host id st s Hid).
    rewrite (mapPath_absent w s id Hid Hnone). reflexivity.
  - intros e He Hdead. rewrite (getattr_canonical w host id st s Hid).
    rewrite (mapPath_canonical w id s Hid). unfold index, erase. unfold_M.
    rewrite He. cbn. rewrite Hdead. reflexivity.
Qed.

Lemma getattr_of_an_unserved_name_witness :
  getattr world_live host_live "/0007.AppImage" stat_zero state_a
  = (getattr_returns (- ENOENT) stat_zero, state_a)
  /\ getattr world_gone host_live "/0000.AppImage" stat_zero state_a
     = (getattr_returns (- ENOENT) stat_zero,
        {| registeredAppImages := delete 0 (registeredAppImages state_a);
           counter := counter state_a |}).
Proof.
  split.
  - apply (getattr_of_an_unserved_name world_live host_live state_a 7 stat_zero).
    + unfold Int.INT_MAX. lia.
    + vm_compute. reflexivity.
  - apply (getattr_of_an_unserved_name world_gone host_live state_a 0 stat_zero
             ltac:(unfold Int.INT_MAX; lia)) with (e := {| _id := 0; _path := "/a"; _fd := 3 |}).
    + vm_compute. reflexivity.
    + reflexivity.
Defined.

(** X18.  [getattr] answers a path with a second slash, such as a name
    below a registered file, and the empty path with an exception:
    [InvalidPathError] leaves the handler, no error number is returned. *)
Theorem getattr_throws_on_nested_paths (w : World) (host : Host) (s : State) (st : stat)
    (a b : string) :
  getattr w host ("/" +:+ a +:+ "/" +:+ b) st s = (getattr_throws InvalidPathError, s)
  /\ getattr w host "" st s = (getattr_throws InvalidPathError, s).
Proof.
  split; [| reflexivity]. unfold getattr.
  assert ((count_slash ("/" +:+ a +:+ "/" +:+ b) =? 1) = false) as ->; [| reflexivity].
  apply Z.eqb_neq. change ("/" +:+ ?x) with (String "/"%char x). cbn [count_slash].
  change (Ascii.eqb "/" "/") with true. cbv iota. rewrite count_slash_append.
  change (String.append "/" b) with (String "/"%char b). cbn [count_slash].
  change (Ascii.eqb "/" "/") with true. cbv iota.
  pose proof (count_slash_nonneg a). pose proof (count_slash_nonneg b). lia.
Qed.

(** ** The listing file through [getattr] and [read] *)

Lemma sum_lengths_permutation {A} (f : A -> nat) (l l' : list A) :
  l ≡ₚ l' -> foldr Nat.add 0%nat (f <$> l) = foldr Nat.add 0%nat (f <$> l').
Proof.
  induction 1 as [| x l l' _ IH | x y l | l l' l'' _ IH1 _ IH2]; cbn.
  - reflexivity.
  - rewrite IH. reflexivity.
  - lia.
  - congruence.
Qed.

Lemma map_to_list_filter_live (w : World) (m : gmap Z RegisteredAppImage) :
  map_to_list (filter (live w) m) ≡ₚ filter (live w) (map_to_list m).
Proof.
  rewrite map_filter_alt. apply map_to_list_to_map.
  apply NoDup_fmap_fst.
  - intros k e1 e2 H1 H2. apply list_elem_of_filter in H1 as [_ H1], H2 as [_ H2].
    apply elem_of_map_to_list in H1, H2. congruence.
  - apply NoDup_filter, NoDup_map_to_list.
Qed.

Lemma generateTextMap_keeps_swept (w : World) (st : State) :
  (generateTextMap w (generateTextMap w st).2).2 = (generateTextMap w st).2.
Proof.
  destruct (registry_answers_or_fails w st) as [Hanswer | Hbad].
  - rewrite (generateTextMap_eq w st Hanswer). cbn [snd].
    rewrite generateTextMap_eq by (intros k e; apply swept_answers).
    cbn [snd registeredAppImages counter]. f_equal.
    apply map_filter_id. intros k e Hk.
    apply map_lookup_filter_Some in Hk as [_ Hlive]. exact Hlive.
  - rewrite (generateTextMap_status_error w st Hbad). cbn [snd].
    rewrite (generateTextMap_status_error w st Hbad). reflexivity.
Qed.

(** Once the stale entries are gone the listing keeps its length. *)
Lemma listing_length_swept (w : World) (st : State) (text text' : string) :
  (generateTextMap w st).1 = Returns text ->
  (generateTextMap w (generateTextMap w st).2).1 = Returns text' ->
  String.length text' = String.length text.
Proof.
  destruct (registry_answers_or_fails w st) as [Hanswer | Hbad].
  - rewrite (generateTextMap_eq w st Hanswer). cbn [fst snd].
    rewrite generateTextMap_eq by (intros k e; apply swept_answers).
    cbn [fst snd registeredAppImages].
    rewrite !foldr_lines. intros [= <-] [= <-]. rewrite !length_foldr_append.
    rewrite <- !list_fmap_compose. apply sum_lengths_permutation.
    rewrite !iteration_Permutation.
    rewrite map_to_list_filter_live. rewrite list_filter_filter_l by tauto. reflexivity.
  - rewrite (generateTextMap_status_error w st Hbad). discriminate.
Qed.

(** X19.  When the status query of every stored path answers, the size
    that [getattr] reports for the listing file is the number of bytes that
    a read from offset 0 returns afterwards, on the same disk, into a
    buffer that is large enough; [getattr] has evicted the stale entries
    already, the read changes nothing more.  When the status query of a
    stored path fails, the [boost::filesystem::filesystem_error] leaves
    [getattr], and the statics are as they were. *)
Theorem getattr_map_size_is_what_read_returns (w : World) (host : Host) (s : State)
    (st : stat) (m : memory) (buf bufsize : Z) (fi : fuse_file_info) :
  ((forall k e, registeredAppImages s !! k = Some e ->
      exists b, RegisteredAppImage_.checkExistsOnDisk w e = Returns b)
   /\ exists (size : Z) (s' : State),
        getattr w host "/map" st s
        = (getattr_returns 0
             (synthetic_stat host st (Z.lor S_IFREG MODE_0444) 1 (Some size)), s')
        /\ (size <= bufsize < 18446744073709551616 -> size <= Int.INT32_MAX ->
            exists m', read w "/map" m buf bufsize 0 fi s' = (Returns (size, m'), s')))
  \/ ((exists k e, registeredAppImages s !! k = Some e
         /\ RegisteredAppImage_.checkExistsOnDisk w e = Throws boost_filesystem_error)
      /\ getattr w host "/map" st s = (getattr_throws boost_filesystem_error, s)).
Proof.
  unfold getattr. cbn [count_slash find_slash String.eqb Ascii.eqb Bool.eqb negb].
  change (bool_decide (Some 0 = Some 0)) with true. cbn [negb andb].
  destruct (registry_answers_or_fails w s) as [Hanswer | Hbad].
  2: { right. split; [exact Hbad |].
       rewrite (generateTextMap_status_error w s Hbad). reflexivity. }
  left. split; [exact Hanswer |].
  destruct (generateTextMap w s) as [o s'] eqn:Hgen.
  pose proof (generateTextMap_eq w s Hanswer) as Heq. rewrite Hgen in Heq.
  injection Heq as -> Hs'.
  eexists. exists s'. split; [reflexivity |]. intros Hbuf Hmax.
  rewrite read_map. unfold handleReadMap.
  destruct (generateTextMap w s') as [o' s''] eqn:Hgen'.
  pose proof (generateTextMap_keeps_swept w s) as Hswept.
  rewrite Hgen in Hswept. cbn [snd] in Hswept. rewrite Hgen' in Hswept. cbn [snd] in Hswept.
  subst s''.
  assert (forall k e, registeredAppImages s' !! k = Some e ->
            exists b, RegisteredAppImage_.checkExistsOnDisk w e = Returns b) as Hanswer'.
  { rewrite Hs'. cbn [registeredAppImages]. intros k e. apply swept_answers. }
  pose proof (generateTextMap_eq w s' Hanswer') as Heq'. rewrite Hgen' in Heq'.
  injection Heq' as -> _.
  erewrite bind_returns by exact Hgen'.
  match goal with |- context [Z.of_nat (String.length ?t)] => set (text' := t) end.
  assert (String.length text'
          = String.length (foldr (fun entry text => listing_line entry +:+ text) ""
                             (filter (live w) (iteration w (registeredAppImages s)))))
    as Hlen.
  { apply (listing_length_swept w s); rewrite Hgen; [reflexivity |].
    cbn [snd]. rewrite Hgen'. reflexivity. }
  rewrite Hlen in *. clearbody text'.
  set (size := Z.of_nat (String.length _)) in *.
  assert (0 <= size) as Hsize by (subst size; lia).
  destruct (Z.gtb_spec 0 size); [lia |].
  rewrite Z.min_r by lia. rewrite Z.sub_0_r, to_size_t_small by lia.
  destruct (Z.gtb_spec size Int.INT32_MAX); [lia |].
  eexists. reflexivity.
Qed.

Lemma getattr_map_size_is_what_read_returns_witness :
  exists m',
    getattr world_live host_live "/map" stat_zero state_a
    = (getattr_returns 0
         (synthetic_stat host_live stat_zero (Z.lor S_IFREG MODE_0444) 1 (Some 20)), state_a)
    /\ read world_live "/map" (fun _ => Text.NUL) 0 4096 0 {| flags := 0; fh := 0 |} state_a
       = (Returns (20, m'), state_a).
Proof.
  destruct (getattr_map_size_is_what_read_returns world_live host_live state_a stat_zero
              (fun _ => Text.NUL) 0 4096 {| flags := 0; fh := 0 |})
    as [[_ (size & s' & Hget & Hread)] | [_ Hthrows]].
  - assert (size = 20 /\ s' = state_a) as [-> ->].
    { vm_compute in Hget. injection Hget as Hsize Hs'. split; [symmetry; exact Hsize |].
      rewrite <- Hs'. vm_compute. reflexivity. }
    destruct Hread as [m' Hm']; [lia | unfold Int.INT32_MAX; lia |].
    exists m'. split; [exact Hget | exact Hm'].
  - vm_compute in Hthrows. discriminate.
Defined.

Example getattr_map_when_a_status_query_fails :
  getattr world_denied host_live "/map" stat_zero
    {| registeredAppImages := {[ 0 := {| _id := 0; _path := "/secret/app"; _fd := 3 |} ]};
       counter := 1 |}
  = (getattr_throws boost_filesystem_error,
     {| registeredAppImages := {[ 0 := {| _id := 0; _path := "/secret/app"; _fd := 3 |} ]};
        counter := 1 |}).
Proof. vm_compute. reflexivity. Qed.

(** ** [open], [write] and [release] on the registration file *)

Lemma foldr_max_ge (l : list Z) (k : Z) : k ∈ l -> k <= foldr Z.max 0 l.
Proof.
  induction l as [| x l IH]; intros Hk; [inversion Hk |].
  cbn [foldr]. apply elem_of_cons in Hk as [-> | Hk]; [lia |]. specialize (IH Hk). lia.
Qed.

Lemma foldr_max_nonneg (l : list Z) : 0 <= foldr Z.max 0 l.
Proof. induction l as [| x l IH]; cbn [foldr]; lia. Qed.

Lemma new_vector_fresh (h : vectors) : new_vector h <> 0 /\ h !! new_vector h = None.
Proof.
  unfold new_vector, vectors in *.
  pose proof (foldr_max_nonneg (elements (dom h))) as Hpos.
  split; [lia |]. apply not_elem_of_dom. intros Hin.
  rewrite <- elem_of_elements in Hin. apply foldr_max_ge in Hin. lia.
Qed.

(** X20.  Every [open] of the registration file succeeds and gets a buffer
    of its own: the handle is not null and was not in use, its buffer is
    empty, and the buffers of all other handles are as they were; the
    statics are not touched. *)
Theorem open_register_gets_a_private_buffer (w : World) (fi : fuse_file_info) (h : vectors)
    (st : State) :
  exists (fi' : fuse_file_info) (h' : vectors),
    open w "/register" fi h st = (Returns (0, fi', h'), st)
    /\ fh fi' <> 0
    /\ h !! fh fi' = None
    /\ h' !! fh fi' = Some []
    /\ forall p, p <> fh fi' -> h' !! p = h !! p.
Proof.
  destruct (new_vector_fresh h) as [Hnull Hfresh]. unfold vectors in *.
  eexists. eexists. split; [reflexivity |]. cbn [fh].
  split; [exact Hnull |]. split; [exact Hfresh |]. split; [apply lookup_insert_eq |].
  intros p Hp. apply lookup_insert_ne. congruence.
Qed.

(** X21.  The listing file opens for reading only, and the refusal is
    [-ENOENT]: with neither [O_WRONLY] nor [O_RDWR] among the flags the
    [open] returns 0; with one of them the path falls through to the
    resolver, which does not know it. *)
Theorem open_map_for_reading_only (w : World) (fi : fuse_file_info) (h : vectors) (st : State) :
  open w "/map" fi h st
  = (Returns (if (Z.land (flags fi) O_RDWR =? 0) && (Z.land (flags fi) O_WRONLY =? 0)
              then 0 else - ENOENT, fi, h), st).
Proof.
  unfold open. cbn [String.eqb Ascii.eqb Bool.eqb andb].
  destruct ((Z.land (flags fi) O_RDWR =? 0) && (Z.land (flags fi) O_WRONLY =? 0));
    reflexivity.
Qed.

Example open_map_for_writing :
  open world_live "/map" {| flags := O_WRONLY; fh := 0 |} ∅ state_a
  = (Returns (- ENOENT, {| flags := O_WRONLY; fh := 0 |}, ∅), state_a).
Proof. reflexivity. Qed.

(** X22.  Writes pile up.  On an open handle of the registration file two
    writes leave the bytes of the first followed by the bytes of the
    second behind what the buffer held, each returns the number of bytes
    it was given, and no other buffer changes; a write to any other path
    returns [-ENOENT] and changes nothing. *)
Theorem write_appends (fi : fuse_file_info) (h : vectors) (old a b : list ascii) (path : string) :
  h !! fh fi = Some old ->
  (exists h1 h2,
      write "/register" a fi h = Some (Z.of_nat (length a), h1)
      /\ write "/register" b fi h1 = Some (Z.of_nat (length b), h2)
      /\ h2 !! fh fi = Some (old ++ a ++ b)
      /\ forall p, p <> fh fi -> h2 !! p = h !! p)
  /\ (path <> "/register" -> write path a fi h = Some (- ENOENT, h)).
Proof.
  unfold vectors in *. intros Hold. split.
  - eexists. eexists. split; [| split; [| split]].
    + unfold write, vectors. cbn [String.eqb Ascii.eqb Bool.eqb andb negb].
      rewrite Hold. reflexivity.
    + unfold write, vectors. cbn [String.eqb Ascii.eqb Bool.eqb andb negb].
      rewrite lookup_insert_eq. reflexivity.
    + rewrite lookup_insert_eq, <- app_assoc. reflexivity.
    + intros p Hp. rewrite !lookup_insert_ne by congruence. reflexivity.
  - intros Hpath. unfold write. apply String.eqb_neq in Hpath. rewrite Hpath. reflexivity.
Qed.

Lemma write_appends_witness :
  (exists h1 h2,
      write "/register" ["/"; "t"]%char {| flags := O_WRONLY; fh := 1 |} {[ 1 := [] ]}
      = Some (2, h1)
      /\ write "/register" ["m"; "p"]%char {| flags := O_WRONLY; fh := 1 |} h1 = Some (2, h2)
      /\ h2 !! 1 = Some ["/"; "t"; "m"; "p"]%char
      /\ forall p, p <> 1 -> h2 !! p = ({[ 1 := [] ]} : vectors) !! p)
  /\ ("/map" <> "/register" ->
      write "/map" ["/"; "t"]%char {| flags := O_WRONLY; fh := 1 |} {[ 1 := [] ]}
      = Some (- ENOENT, {[ 1 := [] ]})).
Proof.
  apply (write_appends {| flags := O_WRONLY; fh := 1 |} {[ 1 := [] ]} []
           ["/"; "t"]%char ["m"; "p"]%char "/map").
  reflexivity.
Defined.

Lemma pop_line_endings_app (eols rest : list ascii) :
  Forall (fun c => is_line_ending c = true) eols ->
  pop_line_endings (eols ++ rest) = pop_line_endings rest.
Proof.
  induction 1 as [| c eols Hc _ IH]; [reflexivity |]. cbn. rewrite Hc. exact IH.
Qed.

(** What the loop of [release] keeps: everything up to the last character
    that is no line ending. *)
Lemma strip_line_endings_body (body eols : list ascii) (c : ascii) :
  is_line_ending c = false ->
  Forall (fun c => is_line_ending c = true) eols ->
  strip_line_endings (body ++ c :: eols) = Some (body ++ [c]).
Proof.
  intros Hc Heols. unfold strip_line_endings.
  rewrite reverse_app, reverse_cons, <- app_assoc.
  rewrite pop_line_endings_app by (apply Forall_reverse, Heols).
  cbn [app pop_line_endings]. rewrite Hc. cbn [fmap option_fmap option_map].
  rewrite reverse_cons, reverse_involutive. reflexivity.
Qed.

(** X23.  [release] of a handle of the registration file whose buffer holds
    a character that is no line ending: the line endings at the end are
    dropped, the rest (earlier line endings included: one path, whatever
    the number of lines) goes to [registerAppImage].  If [bf::exists]
    answers for that path, then whatever the registration does, [release]
    returns 0, sets the handle to null and frees its buffer, and the
    statics are the ones the registration left.  If the status query of
    [bf::exists] fails, its [boost::filesystem::filesystem_error] is caught
    by neither handler and leaves [release]: nothing is returned, the
    statics are as they were.  There is no third case. *)
Theorem release_returns_0_unless_the_status_query_fails (w : World) (st : State)
    (fi : fuse_file_info) (h : vectors) (body eols : list ascii) (c : ascii) :
  fh fi <> 0 ->
  h !! fh fi = Some (body ++ c :: eols) ->
  is_line_ending c = false ->
  Forall (fun c => is_line_ending c = true) eols ->
  ((exists b, bf_exists w (string_of_list_ascii (body ++ [c])) = Returns b)
   /\ release w "/register" fi h st
      = (Returns (0, {| flags := flags fi; fh := 0 |}, delete (fh fi) h),
         (registerAppImage w (string_of_list_ascii (body ++ [c])) st).2))
  \/ (bf_exists w (string_of_list_ascii (body ++ [c])) = Throws boost_filesystem_error
      /\ release w "/register" fi h st = (Throws boost_filesystem_error, st)).
Proof.
  intros Hfh Hbuf Hc Heols.
  pose proof (strip_line_endings_body body eols c Hc Heols) as Hstrip.
  destruct (bf_exists_outcome w (string_of_list_ascii (body ++ [c]))) as [[b Hex] | Hex].
  - left. split; [exists b; exact Hex |].
    apply (release_absorbs_registration_outcome w st fi h _ _ b Hfh Hbuf Hstrip Hex).
  - right. split; [exact Hex |].
    apply (release_lets_the_status_error_out w st fi h _ _ Hfh Hbuf Hstrip Hex).
Qed.

Lemma release_returns_0_unless_the_status_query_fails_witness :
  release world_live "/register" {| flags := O_WRONLY; fh := 1 |}
          {[ 1 := ["/"; "a"; "013"; "010"]%char ]} state_a
  = (Returns (0, {| flags := O_WRONLY; fh := 0 |},
              delete 1 ({[ 1 := ["/"; "a"; "013"; "010"]%char ]} : vectors)),
     (registerAppImage world_live (string_of_list_ascii (["/"] ++ ["a"])%char) state_a).2).
Proof.
  destruct (release_returns_0_unless_the_status_query_fails world_live state_a
              {| flags := O_WRONLY; fh := 1 |} {[ 1 := ["/"; "a"; "013"; "010"]%char ]}
              ["/"]%char ["013"; "010"]%char "a"%char)
    as [[_ Hrelease] | [Hex _]].
  - discriminate.
  - reflexivity.
  - reflexivity.
  - repeat constructor.
  - exact Hrelease.
  - vm_compute in Hex. discriminate.
Defined.

Example release_on_a_path_that_cannot_be_queried :
  bf_exists world_denied "/secret/app" = Throws boost_filesystem_error
  /\ release world_denied "/register" {| flags := O_WRONLY; fh := 1 |}
             {[ 1 := list_ascii_of_string "/secret/app" ++ ["010"%char] ]} state_a
     = (Throws boost_filesystem_error, state_a).
Proof. split; vm_compute; reflexivity. Qed.

(** X24.  Registering through the registration file.  Open it, write a
    path that ends in no line ending followed by a new line, close it:
    [open] and [write] succeed.  If [bf::exists] answers for the path,
    [release] returns 0, the statics are the ones [registerAppImage] of the
    path leaves, and the buffers are back to what they were before the
    [open].  If its status query fails, the error of Boost leaves
    [release] and the statics are as they were. *)
Theorem open_write_release_registers_the_path (w : World) (st : State) (fi : fuse_file_info)
    (h : vectors) (body : list ascii) (c : ascii) :
  is_line_ending c = false ->
  exists (fi1 : fuse_file_info) (h1 h2 : vectors),
    open w "/register" fi h st = (Returns (0, fi1, h1), st)
    /\ write "/register" (body ++ [c; "010"%char]) fi1 h1
       = Some (Z.of_nat (length body) + 2, h2)
    /\ (((exists b, bf_exists w (string_of_list_ascii (body ++ [c])) = Returns b)
         /\ release w "/register" fi1 h2 st
            = (Returns (0, {| flags := flags fi; fh := 0 |}, h),
               (registerAppImage w (string_of_list_ascii (body ++ [c])) st).2))
        \/ (bf_exists w (string_of_list_ascii (body ++ [c])) = Throws boost_filesystem_error
            /\ release w "/register" fi1 h2 st = (Throws boost_filesystem_error, st))).
Proof.
  intros Hc. destruct (new_vector_fresh h) as [Hnull Hfresh]. unfold vectors in *.
  pose proof (strip_line_endings_body body ["010"%char] c Hc ltac:(repeat constructor))
    as Hstrip.
  eexists. eexists. eexists. split; [reflexivity |]. split.
  - unfold write, vectors. cbn [String.eqb Ascii.eqb Bool.eqb andb negb fh].
    rewrite lookup_insert_eq. rewrite length_app. cbn [length app].
    rewrite Nat2Z.inj_add. reflexivity.
  - destruct (bf_exists_outcome w (string_of_list_ascii (body ++ [c]))) as [[b Hex] | Hex].
    + left. split; [exists b; exact Hex |].
      rewrite (release_absorbs_registration_outcome w st _ _ (body ++ [c; "010"%char])
                 (body ++ [c]) b); cbn [fh flags].
      * unfold vectors. rewrite insert_insert_eq, delete_insert_id by exact Hfresh.
        reflexivity.
      * exact Hnull.
      * apply lookup_insert_eq.
      * exact Hstrip.
      * exact Hex.
    + right. split; [exact Hex |].
      apply (release_lets_the_status_error_out w st _ _ (body ++ [c; "010"%char])
               (body ++ [c])); cbn [fh flags].
      * exact Hnull.
      * apply lookup_insert_eq.
      * exact Hstrip.
      * exact Hex.
Qed.

Lemma open_write_release_registers_the_path_witness :
  exists (fi1 : fuse_file_info) (h1 h2 : vectors),
    open world_live "/register" {| flags := O_WRONLY; fh := 0 |} ∅ state_a
    = (Returns (0, fi1, h1), state_a)
    /\ write "/register" (["/"] ++ ["b"; "010"])%char fi1 h1
       = Some (Z.of_nat (length ["/"%char]) + 2, h2)
    /\ release world_live "/register" fi1 h2 state_a
       = (Returns (0, {| flags := O_WRONLY; fh := 0 |}, ∅),
          (registerAppImage world_live (string_of_list_ascii (["/"] ++ ["b"])%char) state_a).2).
Proof.
  destruct (open_write_release_registers_the_path world_live state_a
              {| flags := O_WRONLY; fh := 0 |} ∅ ["/"]%char "b"%char)
    as (fi1 & h1 & h2 & Hopen & Hwrite & [[_ Hrelease] | [Hex _]]).
  - reflexivity.
  - exists fi1, h1, h2. split; [exact Hopen |]. split; [exact Hwrite | exact Hrelease].
  - vm_compute in Hex. discriminate.
Defined.

(** ** More on reads *)

Lemma bytes_at_lookup (m : memory) (buf n : Z) (i : nat) :
  bytes_at m buf n !! i
  = if decide (i < Z.to_nat n)%nat then Some (m (buf + Z.of_nat i)) else None.
Proof.
  unfold bytes_at. change (List.map ?f ?l) with (f <$> l). rewrite list_lookup_fmap.
  destruct (decide (i < Z.to_nat n)%nat) as [Hi | Hi].
  - rewrite lookup_seq_lt by exact Hi. reflexivity.
  - rewrite lookup_seq_ge by lia. reflexivity.
Qed.

(** The bytes of a buffer that holds a window of [src]. *)
Lemma bytes_at_window (m : memory) (buf n : Z) (src : list ascii) (from : Z) :
  0 <= from -> 0 <= n -> from + n <= Z.of_nat (length src) ->
  (forall i, 0 <= i < n -> m (buf + i) = char_at src (from + i)) ->
  bytes_at m buf n = take (Z.to_nat n) (drop (Z.to_nat from) src).
Proof.
  intros Hfrom Hn Hlen Hbytes. apply list_eq. intros i.
  rewrite bytes_at_lookup, lookup_take, lookup_drop.
  destruct (decide (i < Z.to_nat n)%nat) as [Hi | Hi]; [| reflexivity].
  rewrite Hbytes by lia. unfold char_at.
  destruct (Z.ltb_spec (from + Z.of_nat i) 0); [lia |].
  replace (Z.to_nat (from + Z.of_nat i)) with (Z.to_nat from + i)%nat by lia.
  destruct (nth_lookup_or_length src (Z.to_nat from + i) Text.NUL) as [Hnth | Hshort];
    [symmetry; exact Hnth | lia].
Qed.

Lemma length_list_ascii_of_string (s : string) :
  length (list_ascii_of_string s) = String.length s.
Proof. induction s as [| c s IH]; [reflexivity |]. cbn. rewrite IH. reflexivity. Qed.

(** X25.  What a read of the listing file gets.  With [L] the length of
    the listing and [c] the smaller of the buffer size and [L]: a read at
    an offset up to [c] returns [c - offset] bytes, the listing from the
    offset up to position [c], and touches nothing outside the buffer; a
    read at an offset beyond [c] fails with [-EIO] and leaves the memory
    alone, also when the offset is well inside the listing.  So of a
    listing longer than the buffer only the first buffer can be read. *)
Theorem handleReadMap_window (w : World) (m : memory) (buf bufsize offset : Z) (st st' : State)
    (text : string) :
  generateTextMap w st = (Returns text, st') ->
  0 <= offset < 9223372036854775808 ->
  0 <= bufsize < 18446744073709551616 ->
  let c := Z.min bufsize (Z.of_nat (String.length text)) in
  c <= Int.INT32_MAX ->
  (offset <= c ->
   exists m',
     handleReadMap w m buf bufsize offset st = (Returns (c - offset, m'), st')
     /\ bytes_at m' buf (c - offset)
        = take (Z.to_nat (c - offset)) (drop (Z.to_nat offset) (list_ascii_of_string text))
     /\ forall a, a < buf \/ buf + bufsize <= a -> m' a = m a)
  /\ (c < offset -> handleReadMap w m buf bufsize offset st = (Returns (- EIO, m), st')).
Proof.
  intros Hgen Hoff Hbuf c Hc. unfold handleReadMap.
  rewrite (bind_returns _ _ _ _ _ Hgen). fold c. unfold Int.INT32_MAX in *.
  set (L := Z.of_nat (String.length text)) in *.
  assert (0 <= L) as HL by (subst L; lia).
  split.
  - intros Hle. destruct (Z.gtb_spec offset L); [lia |].
    rewrite to_size_t_small by lia.
    destruct (Z.gtb_spec (c - offset) 2147483647); [lia |].
    eexists. split; [reflexivity |]. split.
    + apply bytes_at_window; try lia.
      * rewrite length_list_ascii_of_string. fold L. lia.
      * intros i Hi. rewrite memcpy_at by lia. f_equal. lia.
    + intros a Ha. apply memcpy_other. lia.
  - intros Hgt. destruct (Z.gtb_spec offset L); [reflexivity |].
    assert (Int.to_size_t (c - offset) = c - offset + 18446744073709551616) as ->.
    { unfold Int.to_size_t. symmetry. apply (Z.mod_unique _ _ (-1)); lia. }
    destruct (Z.gtb_spec (c - offset + 18446744073709551616) 2147483647); [reflexivity | lia].
Qed.

Lemma handleReadMap_window_witness :
  (exists m',
     handleReadMap world_live (fun _ => Text.NUL) 0 4 2 state_a = (Returns (2, m'), state_a)
     /\ bytes_at m' 0 2 = ["0"; "0"]%char
     /\ forall a, a < 0 \/ 0 + 4 <= a -> m' a = Text.NUL)
  /\ handleReadMap world_live (fun _ => Text.NUL) 0 4 8 state_a
     = (Returns (- EIO, fun _ => Text.NUL), state_a).
Proof.
  split.
  - apply (handleReadMap_window world_live (fun _ => Text.NUL) 0 4 2 state_a state_a
             ("0000.AppImage -> /a" +:+ endl)).
    + exact generateTextMap_state_a.
    + lia.
    + lia.
    + vm_compute. discriminate.
    + vm_compute. discriminate.
  - apply (handleReadMap_window world_live (fun _ => Text.NUL) 0 4 8 state_a state_a
             ("0000.AppImage -> /a" +:+ endl)).
    + exact generateTextMap_state_a.
    + lia.
    + lia.
    + vm_compute. discriminate.
    + vm_compute. reflexivity.
Defined.

(** X26.  What a read of the registration file gets.  With [c] the
    smaller of the buffer size and the length of the message: at offset 0
    the reader gets the first [c] bytes of the message; at an offset up to
    [c] the handler returns [c - offset] and touches nothing outside the
    buffer; at an offset beyond [c] it returns [-EIO] and leaves the
    memory alone. *)
Theorem handleWriteRegister_window (m : memory) (buf bufsize offset : Z) :
  0 <= offset < 9223372036854775808 ->
  0 <= bufsize < 18446744073709551616 ->
  let c := Z.min bufsize (Z.of_nat (String.length REGISTER_MSG)) in
  (offset = 0 ->
   reply buf (handleWriteRegister m buf bufsize offset)
   = (c, take (Z.to_nat c) (list_ascii_of_string REGISTER_MSG)))
  /\ (offset <= c ->
      (handleWriteRegister m buf bufsize offset).1 = c - offset
      /\ forall a, a < buf \/ buf + bufsize <= a ->
           (handleWriteRegister m buf bufsize offset).2 a = m a)
  /\ (c < offset -> handleWriteRegister m buf bufsize offset = (- EIO, m)).
Proof.
  intros Hoff Hbuf c. unfold handleWriteRegister. fold c.
  assert (0 <= c <= 80) as Hc by (subst c; change (Z.of_nat (String.length REGISTER_MSG)) with 80; lia).
  unfold Int.INT32_MAX. split; [| split].
  - intros ->. rewrite Z.sub_0_r, to_size_t_small by lia.
    destruct (Z.gtb_spec c 2147483647); [lia |]. unfold reply. cbn [fst snd]. f_equal.
    rewrite (bytes_at_window _ buf c (list_ascii_of_string REGISTER_MSG) 0); try lia.
    + reflexivity.
    + rewrite length_list_ascii_of_string. change (Z.of_nat (String.length REGISTER_MSG)) with 80. lia.
    + intros i Hi. rewrite memcpy_at by lia. f_equal. lia.
  - intros Hle. rewrite to_size_t_small by lia.
    destruct (Z.gtb_spec (c - offset) 2147483647); [lia |]. cbn [fst snd].
    split; [reflexivity |]. intros a Ha. apply memcpy_other. lia.
  - intros Hgt.
    assert (Int.to_size_t (c - offset) = c - offset + 18446744073709551616) as ->.
    { unfold Int.to_size_t. symmetry. apply (Z.mod_unique _ _ (-1)); lia. }
    destruct (Z.gtb_spec (c - offset + 18446744073709551616) 2147483647); [reflexivity | lia].
Qed.

Lemma handleWriteRegister_window_witness :
  reply 0 (handleWriteRegister (fun _ => Text.NUL) 0 5 0)
  = (5, ["W"; "r"; "i"; "t"; "e"]%char)
  /\ handleWriteRegister (fun _ => Text.NUL) 0 5 9 = (- EIO, fun _ => Text.NUL).
Proof.
  split.
  - apply (handleWriteRegister_window (fun _ => Text.NUL) 0 5 0); [lia | lia | reflexivity].
  - apply (handleWriteRegister_window (fun _ => Text.NUL) 0 5 9); [lia | lia |].
    vm_compute. reflexivity.
Defined.

(** X27.  A short read in front of the marker writes past its buffer.
    When the window ends before position 8 (offset + bufsize <= 8), the
    handler still stores a zero at [buf + 8 - offset], an address at or
    beyond the end of the buffer, whatever was there. *)
Theorem handleReadRegisteredAppImage_writes_past_a_short_buffer (w : World) (m : memory)
    (buf bufsize offset : Z) (fi : fuse_file_info) (file : list ascii) :
  fd_contents w (Int.wrap_int (fh fi)) = Some file ->
  0 <= offset -> 0 <= bufsize -> offset + bufsize <= magicBytesBegin ->
  buf + bufsize <= buf + (magicBytesBegin - offset)
  /\ (handleReadRegisteredAppImage w m buf bufsize offset fi).2 (buf + (magicBytesBegin - offset))
     = Text.NUL.
Proof.
  intros Hfile Hoff Hsize Hshort. unfold magicBytesBegin in *. split; [lia |].
  rewrite (handleReadRegisteredAppImage_eq w m buf bufsize offset fi file Hfile);
    [| unfold magicBytesEnd; lia | unfold Int.INT32_MAX; lia].
  cbn [snd]. unfold magicBytesBegin, magicBytesEnd. apply memset_at. lia.
Qed.

Lemma handleReadRegisteredAppImage_writes_past_a_short_buffer_witness :
  0 + 4 <= 0 + (magicBytesBegin - 0)
  /\ (handleReadRegisteredAppImage world_live (fun _ => "X"%char) 0 4 0
        {| flags := 0; fh := 3 |}).2 (0 + (magicBytesBegin - 0))
     = Text.NUL.
Proof.
  apply (handleReadRegisteredAppImage_writes_past_a_short_buffer world_live
           (fun _ => "X"%char) 0 4 0 {| flags := 0; fh := 3 |} appimage_bytes).
  - reflexivity.
  - lia.
  - lia.
  - unfold magicBytesBegin. lia.
Defined.

Lemma wrap_int_to_size_t (fd : Z) :
  0 <= fd <= Int.INT_MAX -> Int.wrap_int (Int.to_size_t fd) = fd.
Proof.
  intros Hfd. unfold Int.INT_MAX in Hfd. rewrite to_size_t_small by lia.
  apply wrap_int_small. unfold Int.INT_MIN, Int.INT_MAX. lia.
Qed.

(** X28.  Open, then read behind the marker.  For a registered id whose
    file is on disk, [open] of its name puts the stored descriptor into
    the handle and touches neither the statics nor the buffers; a [read]
    with that handle at an offset beyond position 10 hands back the bytes
    of the file behind the descriptor: as many as the file has from the
    offset on, the buffer size at most, unchanged. *)
Theorem open_then_read_beyond_the_marker (w : World) (st : State) (id : Z)
    (e : RegisteredAppImage) (file : list ascii) (fi : fuse_file_info) (h : vectors)
    (m : memory) (buf bufsize offset : Z) :
  0 <= id <= Int.INT_MAX ->
  registeredAppImages st !! id = Some e ->
  RegisteredAppImage_.checkExistsOnDisk w e = Returns true ->
  0 <= _fd e <= Int.INT_MAX ->
  fd_contents w (_fd e) = Some file ->
  magicBytesEnd < offset ->
  0 <= bufsize <= Int.INT32_MAX ->
  let n := Z.max 0 (Z.min bufsize (Z.of_nat (length file) - offset)) in
  exists (fi' : fuse_file_info) (r : Z * memory),
    open w ("/" +:+ generateFilenameForId id) fi h st = (Returns (0, fi', h), st)
    /\ Int.wrap_int (fh fi') = _fd e
    /\ read w ("/" +:+ generateFilenameForId id) m buf bufsize offset fi' st = (Returns r, st)
    /\ reply buf r = (n, take (Z.to_nat n) (drop (Z.to_nat offset) file)).
Proof.
  intros Hid He Hlive Hfd Hfile Hoff Hsize n.
  destruct (canonical_name_is_no_control_file id Hid) as [Hmap Hreg].
  exists {| flags := flags fi; fh := Int.to_size_t (_fd e) |}.
  eexists. split; [| split; [| split]].
  - unfold open. rewrite Hreg, Hmap. cbn [andb]. unfold try_catch, mbind, M_bind.
    rewrite (mapPath_registered w st id e Hid He Hlive). reflexivity.
  - cbn [fh]. apply wrap_int_to_size_t, Hfd.
  - apply (read_registered w m buf bufsize offset _ st id e Hid He Hlive).
  - unfold handleReadRegisteredAppImage, pread. cbn [fh].
    rewrite (wrap_int_to_size_t _ Hfd), Hfile. unfold magicBytesEnd, Int.INT32_MAX in *.
    destruct (Z.ltb_spec offset 0); [lia |]. fold n.
    destruct (Z.ltb_spec n 0); [lia |].
    destruct (Z.gtb_spec n 2147483647); [lia |].
    destruct (Z.leb_spec offset 10); [lia |].
    unfold reply. cbn [fst snd]. f_equal.
    destruct (Z_le_gt_dec offset (Z.of_nat (length file))) as [Hin | Hout].
    + apply bytes_at_window; [lia | lia | subst n; lia |].
      intros i Hi. rewrite memcpy_at by lia. f_equal. lia.
    + assert (n = 0) as -> by (subst n; lia). reflexivity.
Qed.

Lemma open_then_read_beyond_the_marker_witness :
  exists (fi' : fuse_file_info) (r : Z * memory),
    open world_live ("/" +:+ generateFilenameForId 0) {| flags := 0; fh := 0 |} ∅ state_a
    = (Returns (0, fi', ∅), state_a)
    /\ Int.wrap_int (fh fi') = 3
    /\ read world_live ("/" +:+ generateFilenameForId 0) (fun _ => "X"%char) 0 3 12 fi' state_a
       = (Returns r, state_a)
    /\ reply 0 r = (3, ["000"; "000"; "000"]%char).
Proof.
  apply (open_then_read_beyond_the_marker world_live state_a 0
           {| _id := 0; _path := "/a"; _fd := 3 |} appimage_bytes
           {| flags := 0; fh := 0 |} ∅ (fun _ => "X"%char) 0 3 12).
  - unfold Int.INT_MAX. lia.
  - vm_compute. reflexivity.
  - reflexivity.
  - unfold Int.INT_MAX. cbn. lia.
  - reflexivity.
  - unfold magicBytesEnd. lia.
  - unfold Int.INT32_MAX. lia.
Defined.

(** X29.  Reads that start at or before position 8 blank the marker.  For
    a registered id whose file is on disk and a handle with its
    descriptor, a [read] at an offset from 0 to 8 returns as many bytes as
    the file has from the offset on (the buffer size at most); the bytes
    at the file positions 8, 9 and 10 come back as zero and every other
    byte is the byte of the file. *)
Theorem read_blanks_the_marker_up_to_offset_8 (w : World) (st : State) (id : Z)
    (e : RegisteredAppImage) (file : list ascii) (fi : fuse_file_info)
    (m : memory) (buf bufsize offset : Z) :
  0 <= id <= Int.INT_MAX ->
  registeredAppImages st !! id = Some e ->
  RegisteredAppImage_.checkExistsOnDisk w e = Returns true ->
  fd_contents w (Int.wrap_int (fh fi)) = Some file ->
  0 <= offset <= magicBytesBegin ->
  0 <= bufsize <= Int.INT32_MAX ->
  exists r : Z * memory,
    read w ("/" +:+ generateFilenameForId id) m buf bufsize offset fi st = (Returns r, st)
    /\ r.1 = Z.max 0 (Z.min bufsize (Z.of_nat (length file) - offset))
    /\ forall i, 0 <= i < r.1 ->
         r.2 (buf + i)
         = if (magicBytesBegin <=? offset + i) && (offset + i <=? magicBytesEnd)
           then Text.NUL else char_at file (offset + i).
Proof.
  intros Hid He Hlive Hfile Hoff Hsize. eexists. split; [| split].
  - apply (read_registered w m buf bufsize offset fi st id e Hid He Hlive).
  - rewrite (handleReadRegisteredAppImage_eq w m buf bufsize offset fi file Hfile);
      [reflexivity | unfold magicBytesBegin, magicBytesEnd in *; lia | exact Hsize].
  - intros i Hi.
    apply (handleReadRegisteredAppImage_up_to_offset_8 w m buf bufsize offset fi file i
             Hfile Hoff Hsize Hi).
Qed.

Lemma read_blanks_the_marker_up_to_offset_8_witness :
  exists r : Z * memory,
    read world_live ("/" +:+ generateFilenameForId 0) (fun _ => "X"%char) 0 16 0
         {| flags := 0; fh := 3 |} state_a = (Returns r, state_a)
    /\ r.1 = Z.max 0 (Z.min 16 (Z.of_nat (length appimage_bytes) - 0))
    /\ forall i, 0 <= i < r.1 ->
         r.2 (0 + i)
         = if (magicBytesBegin <=? 0 + i) && (0 + i <=? magicBytesEnd)
           then Text.NUL else char_at appimage_bytes (0 + i).
Proof.
  apply (read_blanks_the_marker_up_to_offset_8 world_live state_a 0
           {| _id := 0; _path := "/a"; _fd := 3 |} appimage_bytes
           {| flags := 0; fh := 3 |} (fun _ => "X"%char) 0 16 0).
  - unfold Int.INT_MAX. lia.
  - vm_compute. reflexivity.
  - reflexivity.
  - reflexivity.
  - unfold magicBytesBegin. lia.
  - unfold Int.INT32_MAX. lia.
Defined.

Example read_whole_header_blanked :
  reply 0 (handleReadRegisteredAppImage world_live (fun _ => "X"%char) 0 16 0
             {| flags := 0; fh := 3 |})
  = (16, [ "127"; "E"; "L"; "F"; "002"; "001"; "001"; "000";
           "000"; "000"; "000"; "000"; "000"; "000"; "000"; "000" ]%char).
Proof. vm_compute. reflexivity. Qed.

(** ** More on the directory listing *)

Lemma canonical_name_length (id : Z) : (9 <= String.length (generateFilenameForId id))%nat.
Proof. unfold generateFilenameForId. rewrite length_append. cbn [String.length]. lia. Qed.

(** X30.  The names of the root directory are pairwise distinct: as long
    as the ids in the registry are [int]s from 0 up, [readdir] hands out
    no name twice (no id shares a name with another id or with one of the
    four fixed entries), and it leaves the statics alone. *)
Theorem readdir_names_are_distinct (st : State) :
  (forall k, is_Some (registeredAppImages st !! k) -> 0 <= k <= Int.INT_MAX) ->
  exists names : list string,
    readdir "/" st = (Returns (0, names), st) /\ NoDup names.
Proof.
  intros Hkeys. eexists. split; [reflexivity |].
  apply NoDup_app. split; [| split].
  - repeat (apply NoDup_cons; split;
            [rewrite ?elem_of_cons, elem_of_nil; intros H; decompose [or] H; congruence |]).
    apply NoDup_nil_2.
  - intros name Hfixed Hgen.
    apply list_elem_of_In, in_map_iff in Hgen as ([k e] & <- & _).
    pose proof (canonical_name_length k) as Hlen. cbn [fst] in *.
    rewrite !elem_of_cons, elem_of_nil in Hfixed.
    decompose [or] Hfixed; try contradiction;
      match goal with H : generateFilenameForId k = _ |- _ => rewrite H in Hlen end;
      cbn in Hlen; lia.
  - change (List.map ?f ?l) with (f <$> l).
    apply (NoDup_fmap_2_strong (fun entry : Z * RegisteredAppImage => generateFilenameForId entry.1)).
    + intros [k1 e1] [k2 e2] H1 H2 Heq. cbn in Heq.
      apply elem_of_map_to_list in H1, H2.
      assert (k1 = k2) as ->.
      { apply canonical_name_inj; [apply Hkeys; eauto | apply Hkeys; eauto | exact Heq]. }
      congruence.
    + apply NoDup_map_to_list.
Qed.

Lemma readdir_names_are_distinct_witness :
  exists names : list string,
    readdir "/" state_xx = (Returns (0, names), state_xx) /\ NoDup names.
Proof.
  apply (readdir_names_are_distinct state_xx).
  intros k [e Hk].
  change (registeredAppImages state_xx)
    with (<[1 := {| _id := 1; _path := "/home/user/x"; _fd := 3 |}]>
            (<[0 := {| _id := 0; _path := "/home/user/x"; _fd := 3 |}]> ∅)
          : gmap Z RegisteredAppImage) in Hk.
  apply lookup_insert_Some in Hk as [[<- _] | [_ Hk]]; [unfold Int.INT_MAX; lia |].
  apply lookup_insert_Some in Hk as [[<- _] | [_ Hk]]; [unfold Int.INT_MAX; lia |].
  rewrite lookup_empty in Hk. discriminate.
Defined.
